(** * print_service: the thread-safe database manager

    A shallow embedding of [ThreadSafeDatabaseManager]
    (gui_qr_print_service.py, lines 15-132; the same class is repeated in
    test_thread_safety.py) and of the part of the SQLite store it drives.

    The class owns two FIFO queues and one worker thread.  Callers put an
    operation on [operation_queue] and block on [result_queue]; the worker
    takes operations one at a time, runs them on its private connection and
    puts one reply per operation on [result_queue].

    The embedding is a labelled transition system: every atomic thing a
    thread can do is an [action], [step] says what the action does to the
    state of the manager, and an interleaving is a list of actions.  Time
    is counted in whole units per waiting thread: a caller blocked in
    [get(timeout=n)] or [join(timeout=n)] can let [n] units pass and no
    more. *)

From Stdlib Require Import String Ascii List ZArith Lia Bool Arith.
From Stdlib Require Import DecimalString DecimalPos Permutation Sorted.
Import ListNotations.
Local Open Scope string_scope.
Local Open Scope list_scope.
Local Open Scope Z_scope.

(** ** The store: one SQLite file holding the table [print_history] *)

Module Sqlite.

(** Python values bound to the [?] place holders and kept in the columns. *)
Inductive value : Type :=
| V_null
| V_text (s : string)
| V_int (z : Z).

(** One row of
<<
  CREATE TABLE IF NOT EXISTS print_history (
      id INTEGER PRIMARY KEY AUTOINCREMENT,
      url TEXT NOT NULL,
      print_type TEXT,
      qr_data TEXT,
      timestamp DATETIME DEFAULT CURRENT_TIMESTAMP,
      status TEXT DEFAULT 'completed')
>> *)
Record row : Type := Row {
  id : Z;
  url : value;
  print_type : value;
  qr_data : value;
  timestamp : Z;
  status : value
}.

(** The store as a connection sees it.  Of the file: the table when it has
    been created, and the AUTOINCREMENT counter SQLite keeps for it (the
    largest id ever handed out).  Of the connection: the id of the row it
    inserted last ([sqlite3_last_insert_rowid], 0 as long as the connection
    has inserted nothing). *)
Record database : Type := Database {
  table : option (list row);
  sequence : Z;
  last_insert_rowid : Z
}.

Definition empty_file : database := Database None 0 0.

(** [sqlite3.connect(db_path)]: the file as it is, seen by a connection
    that has inserted nothing yet. *)
Definition connect (d : database) : database :=
  Database (table d) (sequence d) 0.

Definition rows_of (d : database) : list row :=
  match table d with Some rs => rs | None => [] end.

Definition ids (d : database) : list Z := map id (rows_of d).

Definition row_count (d : database) : nat := length (rows_of d).

(** Columns a caller may name in an INSERT, and columns a SELECT may
    project.  [id] and [timestamp] are always assigned by the store. *)
Inductive field : Type := F_url | F_print_type | F_qr_data | F_status.

Inductive column : Type :=
| C_id | C_url | C_print_type | C_qr_data | C_timestamp | C_status.

(** WHERE clauses; each [?] consumes one parameter. *)
Inductive cond : Type :=
| Everything            (* no WHERE clause *)
| Id_is                 (* WHERE id = ? *)
| Url_is.               (* WHERE url = ? *)

(** The statements the manager is asked to run. *)
Inductive statement : Type :=
| Insert (cols : list field)
    (* INSERT INTO print_history (cols) VALUES (?, ..., ?) *)
| Update_status (w : cond)
    (* UPDATE print_history SET status = ? [WHERE ...] *)
| Delete (w : cond)
    (* DELETE FROM print_history [WHERE ...] *)
| Select (cols : list column) (w : cond)
    (* SELECT cols FROM print_history [WHERE ...] *)
| Select_count (w : cond)
    (* SELECT COUNT( * ) FROM print_history [WHERE ...] *)
| Select_recent (cols : list column) (limit : nat)
    (* SELECT cols FROM print_history ORDER BY timestamp DESC LIMIT limit *)
| Not_sql (token : string).
    (* a text SQLite's parser gives up on at [token] *)

(** What a cursor holds after [execute].  [lastrowid] is [None] on a fresh
    cursor; every [execute] that goes through sets it to the connection's
    [last_insert_rowid], whatever the statement was. *)
Record cursor : Type := Cursor {
  lastrowid : option Z;
  rowcount : Z;                  (* -1 unless the statement wrote *)
  fetchall : list (list value)
}.

Definition fetchone (c : cursor) : option (list value) := hd_error (fetchall c).

(** [execute] either changes the file and fills the cursor or raises; the
    string is [str(e)]. *)
Inductive outcome : Type :=
| Done (d : database) (c : cursor)
| Raises (msg : string).

Definition field_eqb (a b : field) : bool :=
  match a, b with
  | F_url, F_url | F_print_type, F_print_type
  | F_qr_data, F_qr_data | F_status, F_status => true
  | _, _ => false
  end.

(** The value bound to a column: the first occurrence of the column in the
    column list decides. *)
Fixpoint bound (f : field) (cols : list field) (params : list value)
  : option value :=
  match cols, params with
  | c :: cols', p :: params' =>
      if field_eqb f c then Some p else bound f cols' params'
  | _, _ => None
  end.

Definition or_default (o : option value) (dflt : value) : value :=
  match o with Some v => v | None => dflt end.

Definition max_id (rs : list row) : Z := fold_right Z.max 0 (map id rs).

(** AUTOINCREMENT: one more than the largest id ever used. *)
Definition next_id (d : database) : Z :=
  Z.max (sequence d) (max_id (rows_of d)) + 1.

(** [str(z)] for an integer. *)
Definition decimal (z : Z) : string := NilZero.string_of_int (Z.to_int z).

(** The columns [url], [print_type], [qr_data] and [status] are declared
    TEXT: a number stored in them, or compared with them, is turned into
    its decimal text first. *)
Definition text_affinity (v : value) : value :=
  match v with
  | V_int z => V_text (decimal z)
  | _ => v
  end.

Definition new_row (d : database) (now : Z) (cols : list field)
  (params : list value) : row :=
  Row (next_id d)
      (text_affinity (or_default (bound F_url cols params) V_null))
      (text_affinity (or_default (bound F_print_type cols params) V_null))
      (text_affinity (or_default (bound F_qr_data cols params) V_null))
      now
      (text_affinity
         (or_default (bound F_status cols params) (V_text "completed"))).

(** Comparison of a bound parameter with the INTEGER column [id]: text that
    spells a number is converted, as the column's affinity demands. *)
Definition as_id (v : value) : option Z :=
  match v with
  | V_int z => Some z
  | V_text s => option_map Z.of_uint (NilZero.uint_of_string s)
  | V_null => None
  end.

Definition text_eqb (a b : value) : bool :=
  match a, b with
  | V_text s, V_text s' => String.eqb s s'
  | V_int z, V_int z' => Z.eqb z z'
  | _, _ => false
  end.

(** How many parameters a WHERE clause consumes. *)
Definition arity (w : cond) : nat :=
  match w with Everything => 0%nat | Id_is | Url_is => 1%nat end.

Definition matches (w : cond) (params : list value) (r : row) : bool :=
  match w, params with
  | Everything, _ => true
  | Id_is, p :: _ =>
      match as_id p with Some z => Z.eqb (id r) z | None => false end
  | Url_is, p :: _ => text_eqb (url r) (text_affinity p)
  | _, [] => false
  end.

Definition project (c : column) (r : row) : value :=
  match c with
  | C_id => V_int (id r)
  | C_url => url r
  | C_print_type => print_type r
  | C_qr_data => qr_data r
  | C_timestamp => V_int (timestamp r)
  | C_status => status r
  end.

Definition set_status (v : value) (r : row) : row :=
  Row (id r) (url r) (print_type r) (qr_data r) (timestamp r)
      (text_affinity v).

Definition no_table : string := "no such table: print_history".

(** The statement has [uses] place holders and [supplied] parameters came
    with it. *)
Definition bad_bindings (uses supplied : nat) : string :=
  ("Incorrect number of bindings supplied. The current statement uses " ++
   decimal (Z.of_nat uses) ++ ", and there are " ++
   decimal (Z.of_nat supplied) ++ " supplied.")%string.

Definition not_null_url : string :=
  "NOT NULL constraint failed: print_history.url".
Definition not_a_string : string :=
  "execute() argument 1 must be str, not None".

(** The double quote character. *)
Definition quote : string := String (ascii_of_nat 34) EmptyString.

(** The parser's complaint about the token it cannot go on from. *)
Definition syntax_error (token : string) : string :=
  ("near " ++ quote ++ token ++ quote ++ ": syntax error")%string.

(** The place holders of a statement. *)
Definition place_holders (q : statement) : nat :=
  match q with
  | Insert cols => length cols
  | Update_status w => S (arity w)
  | Delete w | Select _ w | Select_count w => arity w
  | Select_recent _ _ | Not_sql _ => 0%nat
  end.

(** ORDER BY timestamp DESC: the latest row first; rows of the same time
    stay in the order of the table. *)
Fixpoint insert_recent (r : row) (sorted : list row) : list row :=
  match sorted with
  | [] => [r]
  | x :: rest =>
      if timestamp x <=? timestamp r then r :: sorted
      else x :: insert_recent r rest
  end.

Definition recent_first (rs : list row) : list row :=
  fold_right insert_recent [] rs.

(** [cursor.execute(query, params)] on a fresh cursor, at wall-clock time
    [now].  [query] is [None] when the caller passed no query.  The text is
    parsed first (a column list or a result list may not be empty), then
    the table is looked up, then the parameters are counted and bound, then
    the statement runs. *)
Definition execute (d : database) (now : Z) (query : option statement)
  (params : list value) : outcome :=
  match query with
  | None => Raises not_a_string
  | Some (Not_sql token) => Raises (syntax_error token)
  | Some (Insert []) => Raises (syntax_error ")")
  | Some (Select [] _) | Some (Select_recent [] _) =>
      Raises (syntax_error "FROM")
  | Some q =>
      match table d with
      | None => Raises no_table
      | Some rs =>
          if negb (Nat.eqb (length params) (place_holders q))
          then Raises (bad_bindings (place_holders q) (length params))
          else
            match q with
            | Insert cols =>
                let r := new_row d now cols params in
                match url r with
                | V_null => Raises not_null_url
                | _ => Done (Database (Some (rs ++ [r])) (id r) (id r))
                            (Cursor (Some (id r)) 1 [])
                end
            | Update_status w =>
                let v := hd V_null params in
                let hit := matches w (tl params) in
                Done (Database
                        (Some (map (fun r => if hit r then set_status v r
                                             else r) rs))
                        (sequence d) (last_insert_rowid d))
                     (Cursor (Some (last_insert_rowid d))
                             (Z.of_nat (length (filter hit rs))) [])
            | Delete w =>
                let hit := matches w params in
                Done (Database (Some (filter (fun r => negb (hit r)) rs))
                               (sequence d) (last_insert_rowid d))
                     (Cursor (Some (last_insert_rowid d))
                             (Z.of_nat (length (filter hit rs))) [])
            | Select cols w =>
                Done d (Cursor (Some (last_insert_rowid d)) (-1)
                          (map (fun r => map (fun c => project c r) cols)
                               (filter (matches w params) rs)))
            | Select_count w =>
                Done d (Cursor (Some (last_insert_rowid d)) (-1)
                          [[V_int (Z.of_nat
                                     (length (filter (matches w params) rs)))]])
            | Select_recent cols limit =>
                Done d (Cursor (Some (last_insert_rowid d)) (-1)
                          (map (fun r => map (fun c => project c r) cols)
                               (firstn limit (recent_first rs))))
            | Not_sql token => Raises (syntax_error token)
            end
      end
  end.

(** The statement the worker runs for [init_db]:
    CREATE TABLE IF NOT EXISTS print_history (...). *)
Definition create_table_if_not_exists (d : database) : outcome :=
  match table d with
  | Some _ => Done d (Cursor (Some (last_insert_rowid d)) (-1) [])
  | None =>
      Done (Database (Some []) (sequence d) (last_insert_rowid d))
           (Cursor (Some (last_insert_rowid d)) (-1) [])
  end.

(** What the PRIMARY KEY AUTOINCREMENT column guarantees of a file: ids are
    unique. *)
Definition well_formed (d : database) : Prop := NoDup (ids d).

End Sqlite.

(** ** The manager: two queues, one worker, any number of callers *)

Import Sqlite.

(** Calling threads are told apart by a number. *)
Definition tid : Type := nat.

(** The first component of the tuple put on [operation_queue]: the string
    literals 'init_db', 'insert', 'update', 'delete', 'select' and
    'select_one' that [__init__] and the five public methods pass.  The
    worker's chain of comparisons has no final [else]; no caller in the
    repository passes any other string. *)
Inductive op_type : Type :=
| K_init_db | K_insert | K_update | K_delete | K_select | K_select_one.

(** [(op_type, query, params)]. *)
Definition operation : Type := (op_type * option statement * list value)%type.

(** The second component of the tuple put on [result_queue]. *)
Inductive payload : Type :=
| P_none                              (* None *)
| P_int (z : Z)                       (* lastrowid, rowcount *)
| P_rows (rs : list (list value))     (* fetchall() *)
| P_row (r : list value).             (* fetchone() *)

(** [('success', payload)] or [('error', str(e))]. *)
Inductive result : Type :=
| Success (p : payload)
| Error (msg : string).

(** How a call of [_execute_operation] ends. *)
Inductive ending : Type :=
| Returns (p : payload)
| Raised (msg : string).

(** A caller inside [_execute_operation] waits on [result_queue] for at most
    [remaining] more time units; a caller inside [close] waits in
    [worker_thread.join]. *)
Inductive waiting : Type :=
| In_call (op : operation) (remaining : nat)
| In_join (remaining : nat).

(** What an observer of the system sees.  The thread numbers in [Executed]
    and in the third field of [Finished] record whose request a reply
    answers; the code has no such field and no step looks at it. *)
Inductive event : Type :=
| Executed (t : tid) (op : operation) (r : result)
| Finished (t : tid) (op : operation) (answer_to : option tid) (e : ending)
| Worker_exit
| Close_returned (t : tid).

Arguments Executed t%_nat op r.
Arguments Finished t%_nat op answer_to e.
Arguments Close_returned t%_nat.

Record manager : Type := Manager {
  conn : database;                                  (* the worker's connection *)
  conn_open : bool;
  worker_alive : bool;
  operation_queue : list (option (tid * operation)); (* None: shutdown signal *)
  result_queue : list (tid * result);
  blocked : list (tid * waiting);
  trace : list event
}.

(** After [worker_thread.start()] and [sqlite3.connect(db_path)], before the
    constructor's own 'init_db' call. *)
Definition started (d : database) : manager :=
  Manager (connect d) true true [] [] [] [].

Fixpoint waiting_of (t : tid) (b : list (tid * waiting)) : option waiting :=
  match b with
  | [] => None
  | (t', w) :: b' => if Nat.eqb t t' then Some w else waiting_of t b'
  end.

Definition unblock (t : tid) (b : list (tid * waiting)) : list (tid * waiting) :=
  filter (fun tw => negb (Nat.eqb t (fst tw))) b.

Definition block (t : tid) (w : waiting) (b : list (tid * waiting))
  : list (tid * waiting) := (t, w) :: unblock t b.

Definition some_int (o : option Z) : payload :=
  match o with Some z => P_int z | None => P_none end.

Definition some_row (o : option (list value)) : payload :=
  match o with Some r => P_row r | None => P_none end.

(** The inner [try: ... except Exception as e:] of the worker: the reply is
    built from the cursor when the statement went through, from [str(e)]
    when it raised; a statement that raised changed nothing. *)
Definition attempt (d : database) (o : outcome) (pay : cursor -> payload)
  : database * result :=
  match o with
  | Done d' c => (d', Success (pay c))
  | Raises msg => (d, Error msg)
  end.

(** The [if op_type == ... elif ...] chain of [_worker]. *)
Definition perform (d : database) (now : Z) (op : operation)
  : database * result :=
  let '(k, query, params) := op in
  match k with
  | K_init_db =>
      attempt d (create_table_if_not_exists d) (fun _ => P_none)
  | K_insert =>
      attempt d (execute d now query params) (fun c => some_int (lastrowid c))
  | K_update =>
      attempt d (execute d now query params) (fun c => P_int (rowcount c))
  | K_delete =>
      attempt d (execute d now query params) (fun c => P_int (rowcount c))
  | K_select =>
      attempt d (execute d now query params) (fun c => P_rows (fetchall c))
  | K_select_one =>
      attempt d (execute d now query params) (fun c => some_row (fetchone c))
  end.

(** One turn of the [while True:] loop of [_worker], at wall-clock time
    [now].  An empty queue makes [get(timeout=1)] raise [queue.Empty] and the
    loop continues; [None] breaks out of the loop and the connection is
    closed; anything else is performed and answered.  The outer
    [except Exception] guards the unpacking of the tuple, which cannot fail
    on the triples [_execute_operation] puts. *)
Definition _worker (now : Z) (m : manager) : option manager :=
  if negb (worker_alive m) then None
  else
    match operation_queue m with
    | [] => Some m
    | None :: rest =>
        Some (Manager (conn m) false false rest (result_queue m) (blocked m)
                      (trace m ++ [Worker_exit]))
    | Some (t, op) :: rest =>
        let (d, r) := perform (conn m) now op in
        Some (Manager d (conn_open m) true rest (result_queue m ++ [(t, r)])
                      (blocked m) (trace m ++ [Executed t op r]))
    end.

(** First half of [_execute_operation]: [operation_queue.put(...)]; the
    caller then blocks in [result_queue.get(timeout=timeout)]. *)
Definition _execute_operation_put (t : tid) (op : operation) (timeout : nat)
  (m : manager) : option manager :=
  match waiting_of t (blocked m) with
  | Some _ => None
  | None =>
      Some (Manager (conn m) (conn_open m) (worker_alive m)
                    (operation_queue m ++ [Some (t, op)]) (result_queue m)
                    (block t (In_call op timeout) (blocked m)) (trace m))
  end.

Definition timed_out : string := "Database operation timed out".

Definition database_error (description : string) : string :=
  ("Database error: " ++ description)%string.

(** [if status == 'error': raise Exception(f"Database error: {result}")]
    and [return result]. *)
Definition raise_or_return (r : result) : ending :=
  match r with
  | Error description => Raised (database_error description)
  | Success p => Returns p
  end.

(** Second half of [_execute_operation] when [get] finds a reply: whatever is
    at the head of [result_queue] is taken. *)
Definition _execute_operation_get (t : tid) (m : manager) : option manager :=
  match waiting_of t (blocked m), result_queue m with
  | Some (In_call op _), (t', r) :: rest =>
      Some (Manager (conn m) (conn_open m) (worker_alive m)
                    (operation_queue m) rest (unblock t (blocked m))
                    (trace m ++ [Finished t op (Some t') (raise_or_return r)]))
  | _, _ => None
  end.

(** One time unit passes for a blocked caller: [get] keeps waiting while the
    reply queue is empty, [join] while the worker is alive. *)
Definition wait (t : tid) (m : manager) : option manager :=
  match waiting_of t (blocked m) with
  | Some (In_call op (S n)) =>
      match result_queue m with
      | [] => Some (Manager (conn m) (conn_open m) (worker_alive m)
                            (operation_queue m) (result_queue m)
                            (block t (In_call op n) (blocked m)) (trace m))
      | _ :: _ => None
      end
  | Some (In_join (S n)) =>
      if worker_alive m
      then Some (Manager (conn m) (conn_open m) (worker_alive m)
                         (operation_queue m) (result_queue m)
                         (block t (In_join n) (blocked m)) (trace m))
      else None
  | _ => None
  end.

(** [get] gives up: [queue.Empty] becomes the time-out exception. *)
Definition _execute_operation_empty (t : tid) (m : manager) : option manager :=
  match waiting_of t (blocked m), result_queue m with
  | Some (In_call op O), [] =>
      Some (Manager (conn m) (conn_open m) (worker_alive m)
                    (operation_queue m) (result_queue m)
                    (unblock t (blocked m))
                    (trace m ++ [Finished t op None (Raised timed_out)]))
  | _, _ => None
  end.

(** [close]: [operation_queue.put(None)], then
    [worker_thread.join(timeout=2)]. *)
Definition join_timeout : nat := 2%nat.

Definition close (t : tid) (m : manager) : option manager :=
  match waiting_of t (blocked m) with
  | Some _ => None
  | None =>
      Some (Manager (conn m) (conn_open m) (worker_alive m)
                    (operation_queue m ++ [None]) (result_queue m)
                    (block t (In_join join_timeout) (blocked m)) (trace m))
  end.

(** [join] returns: the worker has ended or the two time units are over. *)
Definition close_return (t : tid) (m : manager) : option manager :=
  match waiting_of t (blocked m) with
  | Some (In_join n) =>
      if negb (worker_alive m) || Nat.eqb n 0
      then Some (Manager (conn m) (conn_open m) (worker_alive m)
                         (operation_queue m) (result_queue m)
                         (unblock t (blocked m))
                         (trace m ++ [Close_returned t]))
      else None
  | _ => None
  end.

(** The atomic steps of the system. *)
Inductive action : Type :=
| Call (t : tid) (op : operation) (timeout : nat)
| Work (now : Z)
| Wait (t : tid)
| Collect (t : tid)
| Give_up (t : tid)
| Close (t : tid)
| Close_return (t : tid).

Arguments Call t%_nat op timeout%_nat.
Arguments Wait t%_nat.
Arguments Collect t%_nat.
Arguments Give_up t%_nat.
Arguments Close t%_nat.
Arguments Close_return t%_nat.

Definition step (a : action) (m : manager) : option manager :=
  match a with
  | Call t op timeout => _execute_operation_put t op timeout m
  | Work now => _worker now m
  | Wait t => wait t m
  | Collect t => _execute_operation_get t m
  | Give_up t => _execute_operation_empty t m
  | Close t => close t m
  | Close_return t => close_return t m
  end.

(** An interleaving; [None] when some action was not enabled. *)
Fixpoint run (acts : list action) (m : manager) : option manager :=
  match acts with
  | [] => Some m
  | a :: rest =>
      match step a m with
      | Some m' => run rest m'
      | None => None
      end
  end.

(** The public methods; [_execute_operation] has [timeout=5] as default. *)
Definition default_timeout : nat := 5%nat.

Definition init_db : operation := (K_init_db, None, []).

Definition insert (query : statement) (params : list value) : operation :=
  (K_insert, Some query, params).

Definition update (query : statement) (params : list value) : operation :=
  (K_update, Some query, params).

Definition delete (query : statement) (params : list value) : operation :=
  (K_delete, Some query, params).

(** [params or ()]. *)
Definition or_empty (params : option (list value)) : list value :=
  match params with Some ps => ps | None => [] end.

Definition select (query : statement) (params : option (list value))
  : operation := (K_select, Some query, or_empty params).

Definition select_one (query : statement) (params : option (list value))
  : operation := (K_select_one, Some query, or_empty params).

(** A whole call that meets no interference: put, the worker's turn, get. *)
Definition call (t : tid) (op : operation) (now : Z) : list action :=
  [Call t op default_timeout; Work now; Collect t].

Arguments call t%_nat op now%_Z.

(** [QRPDFPrinter.save_to_history]. *)
Definition save_to_history (u pt qr : value) : operation :=
  insert (Insert [F_url; F_print_type; F_qr_data; F_status])
         [u; pt; qr; V_text "processing"].

(** ** Readings of a state and of a trace *)

(** Nothing is in flight: the worker is running and both queues are empty. *)
Definition quiet (m : manager) : Prop :=
  worker_alive m = true /\ operation_queue m = [] /\ result_queue m = [].

(** The thread is not inside a call. *)
Definition idle (t : tid) (m : manager) : Prop :=
  waiting_of t (blocked m) = None.

(** The requests the worker has performed, oldest first. *)
Fixpoint executed (tr : list event) : list (tid * operation) :=
  match tr with
  | [] => []
  | Executed t op _ :: tr' => (t, op) :: executed tr'
  | _ :: tr' => executed tr'
  end.

(** The requests still on [operation_queue], oldest first. *)
Fixpoint queued (q : list (option (tid * operation))) : list (tid * operation) :=
  match q with
  | [] => []
  | Some x :: q' => x :: queued q'
  | None :: q' => queued q'
  end.

(** The requests an interleaving puts on [operation_queue], in order. *)
Fixpoint submitted (acts : list action) : list (tid * operation) :=
  match acts with
  | [] => []
  | Call t op _ :: acts' => (t, op) :: submitted acts'
  | _ :: acts' => submitted acts'
  end.

(** The numbers in the worker's replies to [insert] requests that went
    through: for an INSERT statement, the id of the new row. *)
Fixpoint new_ids (tr : list event) : list Z :=
  match tr with
  | [] => []
  | Executed _ (K_insert, _, _) (Success (P_int i)) :: tr' => i :: new_ids tr'
  | _ :: tr' => new_ids tr'
  end.

(** Inserts the worker performed without an exception. *)
Fixpoint successful_inserts (tr : list event) : nat :=
  match tr with
  | [] => 0%nat
  | Executed _ (K_insert, _, _) (Success _) :: tr' => S (successful_inserts tr')
  | _ :: tr' => successful_inserts tr'
  end.

(** [insert] calls that returned a value to their caller. *)
Fixpoint returned_inserts (tr : list event) : nat :=
  match tr with
  | [] => 0%nat
  | Finished _ (K_insert, _, _) _ (Returns _) :: tr' => S (returned_inserts tr')
  | _ :: tr' => returned_inserts tr'
  end.

(** Replies with status 'success' waiting on [result_queue]. *)
Fixpoint successes (q : list (tid * result)) : nat :=
  match q with
  | [] => 0%nat
  | (_, Success _) :: q' => S (successes q')
  | _ :: q' => successes q'
  end.

(** The action is not a call, or it is an [insert] call with an INSERT
    statement. *)
Definition inserting (a : action) : bool :=
  match a with
  | Call _ (K_insert, Some (Insert _), _) _ => true
  | Call _ _ _ => false
  | _ => true
  end.

(** How often a thread lets a time unit pass in an interleaving. *)
Fixpoint waits (t : tid) (acts : list action) : nat :=
  match acts with
  | [] => 0%nat
  | Wait t' :: acts' => if Nat.eqb t t' then S (waits t acts') else waits t acts'
  | _ :: acts' => waits t acts'
  end.

Definition returns_from_close (t : tid) (a : action) : bool :=
  match a with Close_return t' => Nat.eqb t t' | _ => false end.

(** ** Further readings, invariants and sample data *)

(** The state a quiet manager is in after thread [t] has called [op] and
    taken the reply. *)
Definition after_call (t : tid) (op : operation) (now : Z) (m : manager)
  : manager :=
  let dr := perform (conn m) now op in
  Manager (fst dr) (conn_open m) true [] [] (unblock t (blocked m))
          (trace m ++ [Executed t op (snd dr);
                       Finished t op (Some t) (raise_or_return (snd dr))]).

Arguments after_call t%_nat op now%_Z m.

(** Thread [t] calls [op] on manager [m] and nothing interferes: the worker
    performs the request and answers [e], [t] is handed the reply to that
    very request, the connection is left as [d'] and nothing is in flight
    afterwards. *)
Definition answers (m : manager) (t : tid) (op : operation) (now : Z)
  (d' : database) (e : result) : Prop :=
  exists m',
    run (call t op now) m = Some m' /\
    trace m' = trace m ++ [Executed t op e;
                           Finished t op (Some t) (raise_or_return e)] /\
    conn m' = d' /\ quiet m' /\ idle t m'.

Arguments answers m t%_nat op now%_Z d' e.

(** The worker's turn on a request at the head of the queue: the connection
    becomes [d'], the reply [e] is put behind the replies already waiting,
    and the worker keeps running. *)
Definition serves (m : manager) (now : Z) (t : tid) (d' : database)
  (e : result) : Prop :=
  exists m',
    _worker now m = Some m' /\
    conn m' = d' /\
    result_queue m' = result_queue m ++ [(t, e)] /\
    operation_queue m' = tl (operation_queue m) /\
    worker_alive m' = true /\ conn_open m' = conn_open m.

Arguments serves m now%_Z t%_nat d' e.

Definition insert_request (x : option (tid * operation)) : Prop :=
  match x with
  | Some (_, (K_insert, Some (Insert _), _)) | None => True
  | _ => False
  end.

Definition insert_wait (tw : tid * waiting) : Prop :=
  match snd tw with
  | In_call (K_insert, _, _) _ | In_join _ => True
  | _ => False
  end.

(** What holds of the manager in every state of an interleaving of insert
    calls, relative to the file [d] it was started on. *)
Record serial (d : database) (m : manager) : Prop := Serial {
  rows_added : ids (conn m) = ids d ++ new_ids (trace m);
  ids_unique : well_formed (conn m);
  queue_inserts : Forall insert_request (operation_queue m);
  callers_insert : Forall insert_wait (blocked m);
  replies_counted :
    successful_inserts (trace m) =
    (successes (result_queue m) + returned_inserts (trace m))%nat;
  ids_counted : length (new_ids (trace m)) = successful_inserts (trace m)
}.

(** Two callers submit before either reply is taken, and the second caller
    is the first to look at the reply queue. *)
Definition crossing (t1 t2 : tid) (op1 op2 : operation) (now1 now2 : Z)
  : list action :=
  [Call t1 op1 default_timeout; Call t2 op2 default_timeout;
   Work now1; Collect t2; Work now2; Collect t1].

Arguments crossing t1%_nat t2%_nat op1 op2 now1%_Z now2%_Z.

(** A call that timed out, the worker's late turn on its request, and the
    caller's next call. *)
Definition abandoned (t : tid) (op op' : operation) (now now' : Z)
  : list action :=
  Call t op default_timeout :: repeat (Wait t) default_timeout ++
  [Give_up t; Work now] ++ call t op' now'.

Arguments abandoned t%_nat op op' now%_Z now'%_Z.

(** The requests of one thread among the requests of all. *)
Definition by_thread (t : tid) (l : list (tid * operation))
  : list (tid * operation) :=
  filter (fun x => Nat.eqb t (fst x)) l.

Arguments by_thread t%_nat l.

(** The worker ran a DELETE statement that went through.  'init_db' does not
    look at its query. *)
Definition deleting (e : event) : bool :=
  match e with
  | Executed _ (K_init_db, _, _) _ => false
  | Executed _ (_, Some (Delete _), _) (Success _) => true
  | _ => false
  end.

(** Row [r] is the job that INSERT [cols] bound to [params] stored under
    the id [i]: whatever has happened to its status since. *)
Definition holds (cols : list field) (params : list value) (i : Z) (r : row)
  : Prop :=
  id r = i /\
  url r = text_affinity (or_default (bound F_url cols params) V_null) /\
  print_type r =
    text_affinity (or_default (bound F_print_type cols params) V_null) /\
  qr_data r = text_affinity (or_default (bound F_qr_data cols params) V_null).

(** Of the events [evs]: every INSERT that went through and that no DELETE
    has followed still has its row in [d]. *)
Definition inserted_rows_kept (evs : list event) (d : database) : Prop :=
  forall (e1 : list event) (t : tid) (cols : list field) (params : list value)
         (i : Z) (e2 : list event),
    evs = e1 ++ Executed t (K_insert, Some (Insert cols), params)
                         (Success (P_int i)) :: e2 ->
    existsb deleting e2 = false ->
    exists r : row, In r (rows_of d) /\ holds cols params i r.

(** The thread an action belongs to; the worker's turn belongs to none. *)
Definition actor (a : action) : option tid :=
  match a with
  | Call t _ _ | Wait t | Collect t | Give_up t | Close t | Close_return t =>
      Some t
  | Work _ => None
  end.

(** A file on which 'init_db' has run and nothing else. *)
Definition fresh_table : database := Database (Some []) 0 0.

Definition all_fields : list field := [F_url; F_print_type; F_qr_data; F_status].

(** The parameters [save_to_history] binds for a scanned label. *)
Definition label_job : list value :=
  [V_text "https://example.com/a.pdf"; V_text "label";
   V_text "label:https://example.com/a.pdf"; V_text "processing"].

Definition label_row : row :=
  Row 1 (V_text "https://example.com/a.pdf") (V_text "label")
      (V_text "label:https://example.com/a.pdf") 7 (V_text "processing").

(** The file after that one job has been saved at time 7, as a new
    connection finds it. *)
Definition one_job : database := Database (Some [label_row]) 1 0.

(** The same file as the connection that saved the job sees it. *)
Definition label_saved : database := Database (Some [label_row]) 1 1.

(** The parameters [save_to_history] binds for a scanned receipt. *)
Definition receipt_job : list value :=
  [V_text "https://example.com/b.pdf"; V_text "receipt";
   V_text "receipt:https://example.com/b.pdf"; V_text "processing"].

Definition receipt_row : row :=
  Row 2 (V_text "https://example.com/b.pdf") (V_text "receipt")
      (V_text "receipt:https://example.com/b.pdf") 8 (V_text "processing").

Definition by_id : statement := Select [C_url; C_print_type; C_qr_data] Id_is.

(** A call whose request fails gives up after the default time-out, the
    worker then gets to the request, and another thread makes a call. *)
Definition late_error (t t' : tid) (op op' : operation) (now now' : Z)
  : list action :=
  Call t op default_timeout :: repeat (Wait t) default_timeout ++
  [Give_up t; Work now] ++ call t' op' now'.

Arguments late_error t%_nat t'%_nat op op' now%_Z now'%_Z.

(** Thread 1 saves a label and thread 2 a receipt at the same time; thread
    2 then counts the rows and thread 1 marks its label as printed, by url;
    the worker has just done the count. *)
Definition label_then_update : list action :=
  Call 1 (insert (Insert all_fields) label_job) default_timeout ::
  [Call 2 (insert (Insert all_fields) receipt_job) default_timeout;
   Work 7; Work 8; Collect 2; Collect 1;
   Call 2 (select (Select_count Everything) None) default_timeout] ++
  Call 1 (update (Update_status Url_is)
                 [V_text "completed"; V_text "https://example.com/a.pdf"])
       default_timeout ::
  [Work 9].

(** Two threads insert at the same time; the replies are taken in the order
    opposite to the submissions. *)
Definition two_inserters : list action :=
  [Call 1 (insert (Insert all_fields) label_job) default_timeout;
   Call 2 (insert (Insert all_fields) label_job) default_timeout;
   Work 7; Work 8; Collect 2; Collect 1].

(** ** Scripts, reply order and the history view *)

(** Calls made one after the other, each by some thread at some time. *)
Definition script : Type := list (tid * operation * Z).

Definition calls (s : script) : list action :=
  flat_map (fun c => call (fst (fst c)) (snd (fst c)) (snd c)) s.

(** The file after the operations of a script have been performed in turn. *)
Fixpoint replay (d : database) (s : script) : database :=
  match s with
  | [] => d
  | (_, op, now) :: s' => replay (fst (perform d now op)) s'
  end.

(** What an observer sees of a script that meets no interference: every
    request is performed and its own reply handed to its caller. *)
Fixpoint transcript (d : database) (s : script) : list event :=
  match s with
  | [] => []
  | (t, op, now) :: s' =>
      Executed t op (snd (perform d now op)) ::
      Finished t op (Some t) (raise_or_return (snd (perform d now op))) ::
      transcript (fst (perform d now op)) s'
  end.

(** The requests the worker has performed, each with its reply. *)
Fixpoint performed (tr : list event) : list (tid * operation * result) :=
  match tr with
  | [] => []
  | Executed t op r :: tr' => (t, op, r) :: performed tr'
  | _ :: tr' => performed tr'
  end.

(** The replies callers have taken off [result_queue], in the order in which
    they took them: whose request the reply answered, and how the call that
    took it ended. *)
Fixpoint taken (tr : list event) : list (tid * ending) :=
  match tr with
  | [] => []
  | Finished _ _ (Some t') e :: tr' => (t', e) :: taken tr'
  | _ :: tr' => taken tr'
  end.

(** The reply on the queue as the call that takes it will see it. *)
Definition as_taken (x : tid * result) : tid * ending :=
  (fst x, raise_or_return (snd x)).

Definition as_produced (x : tid * operation * result) : tid * ending :=
  (fst (fst x), raise_or_return (snd x)).

(** The ids the store gave to the rows of the INSERT statements that went
    through [insert]. *)
Fixpoint assigned_ids (tr : list event) : list Z :=
  match tr with
  | [] => []
  | Executed _ (K_insert, Some (Insert _), _) (Success (P_int i)) :: tr' =>
      i :: assigned_ids tr'
  | _ :: tr' => assigned_ids tr'
  end.

(** A file whose AUTOINCREMENT counter is not behind its rows. *)
Definition coherent (d : database) : Prop :=
  Forall (fun i => i <= sequence d) (ids d).

(** [str(id_)], the tag [refresh_history] gives a line of the history
    tree; [get_selected_item] reads it back and binds it to [WHERE id = ?]. *)
Definition history_tag (i : Z) : string := NilZero.string_of_int (Z.to_int i).

(** The query of [get_selected_item]:
    SELECT url, print_type, qr_data FROM print_history WHERE id = ?. *)
Definition get_selected_item (item_id : string) : operation :=
  select_one by_id (Some [V_text item_id]).

(** How the call a thread made last ended, when that is the last thing that
    happened. *)
Definition last_ending (t : tid) (m : manager) : option ending :=
  match last (trace m) Worker_exit with
  | Finished t' _ _ e => if Nat.eqb t t' then Some e else None
  | _ => None
  end.

Arguments last_ending t%_nat m.

(** What [get_selected_item] makes of the reply to its query: [if result:]
    and the subscripts [result[0]], [result[1]], [result[2]] give an item
    when the reply is a sequence of at least three entries; an empty reply,
    a number (not subscriptable) or an exception give [None]. *)
Definition item_found (e : option ending) : bool :=
  match e with
  | Some (Returns (P_row r)) => (3 <=? length r)%nat
  | Some (Returns (P_rows rs)) => (3 <=? length rs)%nat
  | _ => false
  end.

(** The query of [refresh_history]:
    SELECT id, print_type, url, status, timestamp FROM print_history
    ORDER BY timestamp DESC LIMIT 100. *)
Definition refresh_history : operation :=
  select (Select_recent [C_id; C_print_type; C_url; C_status; C_timestamp] 100)
         None.

(** [delete_selected], run by thread [t] while no other thread is active.
    [selection] is the tag of the selected line of the history tree, if a
    line is selected; [yes] is the answer to "Delete selected item from
    history?".  The item is looked up first; only when it is found and the
    answer is yes, DELETE FROM print_history WHERE id = ? is sent, bound to
    the tag; and when that call returns, the history is read again for the
    tree. *)
Definition delete_selected (t : tid) (selection : option string) (yes : bool)
  (now now' now'' : Z) (m : manager) : option manager :=
  match selection with
  | None => Some m
  | Some item_id =>
      match run (call t (get_selected_item item_id) now) m with
      | Some m1 =>
          if item_found (last_ending t m1) then
            if yes then
              match run (call t (delete (Delete Id_is) [V_text item_id]) now')
                        m1 with
              | Some m2 =>
                  match last_ending t m2 with
                  | Some (Returns _) => run (call t refresh_history now'') m2
                  | _ => Some m2
                  end
              | None => None
              end
            else Some m1
          else Some m1
      | None => None
      end
  end.

Arguments delete_selected t%_nat selection yes now%_Z now'%_Z now''%_Z m.

(** The query of [clear_history]: DELETE FROM print_history, (). *)
Definition clear_history : operation := delete (Delete Everything) [].

(** ** The application: printer types and scanned codes

    [QRPDFPrinter] keeps its configuration in a dictionary and turns the
    text of a scanned code into a print job.  Python dictionaries keep
    their keys in insertion order, and two of the functions below depend on
    that order, so [config["printer_types"]] is a list of pairs with the
    operations of a dictionary.  A character is a code point below 256. *)

Module QRPDFPrinter.

(** *** Text *)

(** [str.isspace] on one character. *)
Definition is_space (c : ascii) : bool :=
  match nat_of_ascii c with
  | 9 | 10 | 11 | 12 | 13 | 28 | 29 | 30 | 31 | 32 | 133 | 160 => true
  | _ => false
  end%nat.

(** [str.lower] on one character: A-Z and the capital letters of Latin-1. *)
Definition lower_char (c : ascii) : ascii :=
  let n := nat_of_ascii c in
  if ((65 <=? n) && (n <=? 90)
      || (192 <=? n) && (n <=? 222) && negb (n =? 215))%nat
  then ascii_of_nat (n + 32)
  else c.

Fixpoint lower (s : string) : string :=
  match s with
  | EmptyString => EmptyString
  | String c s' => String (lower_char c) (lower s')
  end.

Fixpoint lstrip (s : string) : string :=
  match s with
  | EmptyString => EmptyString
  | String c s' => if is_space c then lstrip s' else s
  end.

Fixpoint rstrip (s : string) : string :=
  match s with
  | EmptyString => EmptyString
  | String c s' =>
      match rstrip s' with
      | EmptyString => if is_space c then EmptyString else String c EmptyString
      | r => String c r
      end
  end.

(** [s.strip()]. *)
Definition strip (s : string) : string := lstrip (rstrip s).

Fixpoint starts_with (p s : string) : bool :=
  match p, s with
  | EmptyString, _ => true
  | String a p', String b s' => Ascii.eqb a b && starts_with p' s'
  | String _ _, EmptyString => false
  end.

Fixpoint drop (n : nat) (s : string) : string :=
  match n, s with
  | O, _ => s
  | S n', String _ s' => drop n' s'
  | S _, EmptyString => EmptyString
  end.

Fixpoint take (n : nat) (s : string) : string :=
  match n, s with
  | S n', String c s' => String c (take n' s')
  | _, _ => EmptyString
  end.

(** The text before and the text after the leftmost occurrence of [sep]:
    the two parts of [s.split(sep, 1)] when [sep] occurs in [s]. *)
Fixpoint split_once (sep s : string) : option (string * string) :=
  if starts_with sep s then Some (EmptyString, drop (String.length sep) s)
  else
    match s with
    | EmptyString => None
    | String c s' =>
        match split_once sep s' with
        | Some (a, b) => Some (String c a, b)
        | None => None
        end
    end.

(** The character occurs in the text. *)
Fixpoint occurs_in (c : ascii) (s : string) : Prop :=
  match s with
  | EmptyString => False
  | String b s' => b = c \/ occurs_in c s'
  end.

(** [sep in s]. *)
Definition contains (sep s : string) : bool :=
  match split_once sep s with Some _ => true | None => false end.

(** [sep.join(l)]. *)
Fixpoint join (sep : string) (l : list string) : string :=
  match l with
  | [] => EmptyString
  | [x] => x
  | x :: l' => (x ++ sep ++ join sep l')%string
  end.

(** *** The configuration *)

(** One value of [config["printer_types"]].  The three keys that the code
    reads with [.get(key, default)] may be absent. *)
Record printer_type : Type := Printer_type {
  display_name : string;
  prefix : string;
  printer_name : string;
  media : option string;
  options : option (list string);
  media_options : option (list string)
}.

Definition printer_types : Type := list (string * printer_type).

(** [self.config]: the printer types and, of the settings, the separator
    ([None] when the key is absent). *)
Record config : Type := Config {
  types : printer_types;
  qr_separator : option string
}.

(** [d.get(k)]. *)
Fixpoint dict_get (k : string) (d : printer_types) : option printer_type :=
  match d with
  | [] => None
  | (k', v) :: d' => if String.eqb k k' then Some v else dict_get k d'
  end.

(** [k in d]. *)
Definition dict_has (k : string) (d : printer_types) : bool :=
  match dict_get k d with Some _ => true | None => false end.

(** [d[k] = v]: an existing key keeps its place, a new key goes last. *)
Fixpoint dict_set (k : string) (v : printer_type) (d : printer_types)
  : printer_types :=
  match d with
  | [] => [(k, v)]
  | (k', v') :: d' =>
      if String.eqb k k' then (k, v) :: d' else (k', v') :: dict_set k v d'
  end.

(** [del d[k]]. *)
Fixpoint dict_del (k : string) (d : printer_types) : printer_types :=
  match d with
  | [] => []
  | (k', v') :: d' =>
      if String.eqb k k' then d' else (k', v') :: dict_del k d'
  end.

Definition auto_media : string := "auto (printer default)".

Definition get_media_options (cfg : config) (printer_type_id : string)
  : list string :=
  match dict_get printer_type_id (types cfg) with
  | Some tc =>
      match media_options tc with Some l => l | None => [auto_media] end
  | None => [auto_media]
  end.

Definition get_printer_types (cfg : config) : list string :=
  map fst (types cfg).

Definition get_valid_prefixes (cfg : config) : list string :=
  map (fun kv => prefix (snd kv)) (types cfg).

Fixpoint first_with_prefix (p : string) (d : printer_types) : option string :=
  match d with
  | [] => None
  | (type_id, tc) :: d' =>
      if String.eqb (prefix tc) p then Some type_id else first_with_prefix p d'
  end.

Definition get_printer_type_by_prefix (cfg : config) (p : string)
  : option string := first_with_prefix p (types cfg).

(** [add_printer_type]; [media_options=None] stands for the default list.
    The new state is also written to the file by [save_config]. *)
Definition add_printer_type (cfg : config) (type_id display prefix : string)
  (media_options : option (list string)) : config :=
  Config (dict_set type_id
            (Printer_type display prefix "default" (Some auto_media) (Some [])
               (Some match media_options with
                     | Some l => l
                     | None => [auto_media]
                     end))
            (types cfg))
         (qr_separator cfg).

(** [remove_printer_type]: the new configuration and the value returned. *)
Definition remove_printer_type (cfg : config) (type_id : string)
  : config * bool :=
  if dict_has type_id (types cfg) && (1 <? length (types cfg))%nat
  then (Config (dict_del type_id (types cfg)) (qr_separator cfg), true)
  else (cfg, false).

(** [add_new_printer_type] once the dialog has returned
    [(type_id, display_name, prefix, media_options)]: the new configuration,
    and the error message when the type is refused. *)
Definition add_new_printer_type (cfg : config) (type_id display prefix : string)
  (media_options : list string) : config * option string :=
  if negb (dict_has type_id (types cfg))
  then (add_printer_type cfg type_id display prefix (Some media_options), None)
  else (cfg, Some ("Printer type '" ++ type_id ++ "' already exists!")%string).

(** The printer types [load_config] sets before it reads the file. *)
Definition default_printer_types : printer_types :=
  [("label",
    Printer_type "Label Printer" "label" "default" (Some auto_media) (Some [])
      (Some [auto_media; "Custom.2x1in"; "Custom.4x6in"; "Custom.51x25mm";
             "Custom.102x51mm"; "Custom.4x2in"; "Custom.3x1in";
             "Custom.62x29mm"; "na_index-4x6_4x6in";
             "om_small-photo_100x150mm"]));
   ("receipt",
    Printer_type "Receipt Printer" "receipt" "default" (Some auto_media)
      (Some [])
      (Some [auto_media; "Receipt"; "Custom.3x11in"; "Custom.80mm";
             "Custom.58mm"; "Custom.57x32000mm"; "Custom.80x200mm"]))].

Definition default_config : config := Config default_printer_types (Some ":").

(** *** Scanned codes *)

(** What [process_qr_input] does with the text of the entry field. *)
Inductive scan : Type :=
| Nothing_scanned                 (* "Please scan or enter QR code data" *)
| Print_job (printer_type_id url qr_data : string)
    (* save_to_history(url, printer_type_id, qr_data), then the print thread *)
| Rejected (error_msg : string).  (* logged and shown in red *)

Definition separator_of (cfg : config) : string :=
  match qr_separator cfg with Some sep => sep | None => ":" end.

Definition unknown_prefix (cfg : config) (p : string) : string :=
  ("Unknown prefix: '" ++ p ++ "'. Valid prefixes: " ++
   join ", " (get_valid_prefixes cfg))%string.

Definition invalid_format (separator first_prefix : string) : string :=
  ("Invalid QR format. Expected: 'prefix" ++ separator ++ "url' (e.g., '" ++
   first_prefix ++ separator ++ "https://example.com/file.pdf')")%string.

Definition processing_error (e : string) : string :=
  ("QR processing error: " ++ e)%string.

(** The branch taken when the text has no separator: [valid_prefixes[0]]
    raises IndexError when there is no printer type. *)
Definition not_in_format (cfg : config) : scan :=
  match get_valid_prefixes cfg with
  | first :: _ => Rejected (invalid_format (separator_of cfg) first)
  | [] => Rejected (processing_error "list index out of range")
  end.

Definition process_qr_input (cfg : config) (entry : string) : scan :=
  let qr_data := strip entry in
  match qr_data with
  | EmptyString => Nothing_scanned
  | _ =>
      let separator := separator_of cfg in
      if contains separator qr_data then
        match separator with
        | EmptyString => Rejected (processing_error "empty separator")
        | _ =>
            match split_once separator qr_data with
            | Some (p, url) =>
                match get_printer_type_by_prefix cfg (lower p) with
                | Some EmptyString | None => Rejected (unknown_prefix cfg p)
                | Some printer_type_id => Print_job printer_type_id url qr_data
                end
            | None => not_in_format cfg
            end
        end
      else not_in_format cfg
  end.

(** [url if len(url) <= 60 else url[:57] + "..."], the preview of
    [on_qr_input_change]; [refresh_history] does the same with 50 and 47. *)
Definition preview_url (url : string) : string :=
  if (String.length url <=? 60)%nat then url
  else (take 57 url ++ "...")%string.

Definition history_url (url : string) : string :=
  if (String.length url <=? 50)%nat then url
  else (take 47 url ++ "...")%string.

End QRPDFPrinter.

(** The request a scanned code leads to, if any: [process_qr_input] calls
    [save_to_history(url, printer_type_id, qr_data)] for a print job and
    nothing for anything else. *)
Definition scanned (cfg : QRPDFPrinter.config) (entry : string)
  : option operation :=
  match QRPDFPrinter.process_qr_input cfg entry with
  | QRPDFPrinter.Print_job printer_type_id url qr_data =>
      Some (save_to_history (V_text url) (V_text printer_type_id)
                            (V_text qr_data))
  | _ => None
  end.

(** A dictionary has each key once. *)
Definition unique_keys (d : QRPDFPrinter.printer_types) : Prop :=
  NoDup (map fst d).

(** ** The store *)

Lemma max_id_bounds (rs : list row) (r : row) :
  In r rs -> id r <= max_id rs.
Proof.
  unfold max_id. induction rs as [|x rs IH]; simpl; [tauto|].
  intros [->|H]; [lia|]. specialize (IH H). lia.
Qed.

Lemma next_id_fresh (d : database) : ~ In (next_id d) (ids d).
Proof.
  unfold ids, next_id. intros H. apply in_map_iff in H.
  destruct H as [r [E H]]. apply max_id_bounds in H. lia.
Qed.



(** What [execute] has done when it did not raise. *)
Lemma execute_done (d d' : database) (now : Z) (q : option statement)
  (params : list value) (c : cursor) :
  execute d now q params = Done d' c ->
  exists (stmt : statement) (rs : list row),
    q = Some stmt /\ table d = Some rs /\
    length params = place_holders stmt /\
    match stmt with
    | Insert cols =>
        url (new_row d now cols params) <> V_null /\
        d' = Database (Some (rs ++ [new_row d now cols params]))
                      (next_id d) (next_id d) /\
        c = Cursor (Some (next_id d)) 1 []
    | Update_status w =>
        d' = Database
               (Some (map (fun r => if matches w (tl params) r
                                    then set_status (hd V_null params) r
                                    else r) rs))
               (sequence d) (last_insert_rowid d) /\
        c = Cursor (Some (last_insert_rowid d))
                   (Z.of_nat (length (filter (matches w (tl params)) rs))) []
    | Delete w =>
        d' = Database (Some (filter (fun r => negb (matches w params r)) rs))
                      (sequence d) (last_insert_rowid d) /\
        c = Cursor (Some (last_insert_rowid d))
                   (Z.of_nat (length (filter (matches w params) rs))) []
    | Select cols w =>
        d' = d /\
        c = Cursor (Some (last_insert_rowid d)) (-1)
                   (map (fun r => map (fun k => project k r) cols)
                        (filter (matches w params) rs))
    | Select_count w =>
        d' = d /\
        c = Cursor (Some (last_insert_rowid d)) (-1)
                   [[V_int (Z.of_nat (length (filter (matches w params) rs)))]]
    | Select_recent cols limit =>
        d' = d /\
        c = Cursor (Some (last_insert_rowid d)) (-1)
                   (map (fun r => map (fun k => project k r) cols)
                        (firstn limit (recent_first rs)))
    | Not_sql _ => False
    end.
Proof.
  destruct q as [[[|f cols]|w|w|[|k cols] w|w|[|k cols] limit|token]|];
    try discriminate;
    unfold execute; cbv beta iota;
    (destruct (table d) as [rs|]; [|discriminate]);
    match goal with
    | |- context [Nat.eqb ?a ?b] => destruct (Nat.eqb_spec a b) as [L|L]
    end; try discriminate; cbv beta iota zeta; cbn [negb].
  - destruct (url (new_row d now (f :: cols) params)) eqn:U; [discriminate| |];
      intros [= <- <-]; exists (Insert (f :: cols)), rs;
      (repeat split; try assumption; try congruence).
  - intros [= <- <-]. exists (Update_status w), rs. now repeat split.
  - intros [= <- <-]. exists (Delete w), rs. now repeat split.
  - intros [= <- <-]. exists (Select (k :: cols) w), rs. now repeat split.
  - intros [= <- <-]. exists (Select_count w), rs. now repeat split.
  - intros [= <- <-]. exists (Select_recent (k :: cols) limit), rs.
    now repeat split.
Qed.

(** An INSERT that goes through appends exactly the row [new_row] and
    reports its id. *)
Lemma execute_insert_done (d d' : database) (now : Z) (cols : list field)
  (params : list value) (c : cursor) :
  execute d now (Some (Insert cols)) params = Done d' c ->
  rows_of d' = rows_of d ++ [new_row d now cols params] /\
  lastrowid c = Some (next_id d) /\
  table d <> None.
Proof.
  intros E. apply execute_done in E.
  destruct E as (stmt & rs & [= <-] & T & _ & _ & -> & ->).
  unfold rows_of. rewrite T. simpl. repeat split. discriminate.
Qed.

Lemma ids_set_status (hit : row -> bool) (v : value) (rs : list row) :
  map id (map (fun r => if hit r then set_status v r else r) rs) = map id rs.
Proof.
  induction rs as [|r rs IH]; simpl; [reflexivity|].
  rewrite IH. now destruct (hit r).
Qed.

(** Deleting rows keeps the remaining ids unique. *)
Lemma ids_unique_after_delete (rs : list row) (keep : row -> bool) :
  NoDup (map id rs) -> NoDup (map id (filter keep rs)).
Proof.
  intros U. induction rs as [|r rs IH]; [exact U|].
  apply NoDup_cons_iff in U. destruct U as [Fresh U]. cbn [filter].
  destruct (keep r); [|now apply IH]. cbn [map]. apply NoDup_cons_iff.
  split; [|now apply IH].
  intros Again. apply in_map_iff in Again. destruct Again as (r' & Same & Kept).
  apply Fresh, in_map_iff. exists r'. apply filter_In in Kept. tauto.
Qed.

(** Whatever is executed, ids stay unique. *)
Lemma execute_well_formed (d d' : database) (now : Z) (q : option statement)
  (params : list value) (c : cursor) :
  well_formed d -> execute d now q params = Done d' c -> well_formed d'.
Proof.
  unfold well_formed. intros W E. pose proof (next_id_fresh d) as F.
  apply execute_done in E. destruct E as (stmt & rs & -> & T & _ & E).
  unfold ids, rows_of in *. rewrite T in W, F.
  destruct stmt as [cols|w|w|cols w|w|cols limit|token].
  - destruct E as (_ & -> & _). simpl. rewrite map_app. simpl.
    apply Permutation_NoDup with (l := next_id d :: map id rs).
    + apply Permutation_cons_append.
    + constructor; assumption.
  - destruct E as (-> & _). simpl. now rewrite ids_set_status.
  - destruct E as (-> & _). simpl. now apply ids_unique_after_delete.
  - destruct E as (-> & _). now rewrite T.
  - destruct E as (-> & _). now rewrite T.
  - destruct E as (-> & _). now rewrite T.
  - contradiction.
Qed.

Lemma create_table_done (d : database) :
  exists d' c, create_table_if_not_exists d = Done d' c /\
               rows_of d' = rows_of d /\ table d' <> None /\
               sequence d' = sequence d /\
               last_insert_rowid d' = last_insert_rowid d /\
               (table d <> None -> d' = d).
Proof.
  unfold create_table_if_not_exists, rows_of.
  destruct d as [[rs|] s l]; simpl; eexists; eexists;
    (split; [reflexivity|]); simpl; repeat split; congruence.
Qed.

(** ** Blocked callers *)

Lemma waiting_of_unblock (t : tid) (b : list (tid * waiting)) :
  waiting_of t (unblock t b) = None.
Proof.
  induction b as [|[t' w] b IH]; simpl; [reflexivity|].
  destruct (Nat.eqb t t') eqn:E; simpl; [assumption|]. now rewrite E.
Qed.

Lemma waiting_of_unblock_other (t t' : tid) (b : list (tid * waiting)) :
  t <> t' -> waiting_of t (unblock t' b) = waiting_of t b.
Proof.
  intros N. induction b as [|[u w] b IH]; simpl; [reflexivity|].
  destruct (Nat.eqb t' u) eqn:E; simpl.
  - apply Nat.eqb_eq in E. subst u.
    destruct (Nat.eqb t t') eqn:E'; [apply Nat.eqb_eq in E'; congruence|assumption].
  - now rewrite IH.
Qed.

Lemma waiting_of_block (t : tid) (w : waiting) (b : list (tid * waiting)) :
  waiting_of t (block t w b) = Some w.
Proof. unfold block. simpl. now rewrite Nat.eqb_refl. Qed.

Lemma waiting_of_block_other (t t' : tid) (w : waiting)
  (b : list (tid * waiting)) :
  t <> t' -> waiting_of t (block t' w b) = waiting_of t b.
Proof.
  intros N. unfold block. simpl.
  destruct (Nat.eqb t t') eqn:E; [apply Nat.eqb_eq in E; congruence|].
  now apply waiting_of_unblock_other.
Qed.

Lemma unblock_twice (t : tid) (b : list (tid * waiting)) :
  unblock t (unblock t b) = unblock t b.
Proof.
  induction b as [|[u w] b IH]; simpl; [reflexivity|].
  destruct (Nat.eqb t u) eqn:E; simpl; [assumption|]. rewrite E. simpl.
  now rewrite IH.
Qed.

Lemma unblock_block (t : tid) (w : waiting) (b : list (tid * waiting)) :
  unblock t (block t w b) = unblock t b.
Proof.
  unfold block. simpl. rewrite Nat.eqb_refl. simpl. apply unblock_twice.
Qed.

Lemma run_app (a b : list action) (m : manager) :
  run (a ++ b) m =
  match run a m with Some m' => run b m' | None => None end.
Proof.
  revert m. induction a as [|x a IH]; intros m; simpl; [reflexivity|].
  destruct (step x m); [apply IH|reflexivity].
Qed.

(** ** A call that meets no interference *)

Lemma put_enabled (t : tid) (op : operation) (timeout : nat) (m : manager) :
  idle t m ->
  _execute_operation_put t op timeout m =
  Some (Manager (conn m) (conn_open m) (worker_alive m)
                (operation_queue m ++ [Some (t, op)]) (result_queue m)
                (block t (In_call op timeout) (blocked m)) (trace m)).
Proof. unfold idle, _execute_operation_put. now intros ->. Qed.

Lemma get_enabled (t t' : tid) (op : operation) (n : nat) (r : result)
  (rest : list (tid * result)) (m : manager) :
  waiting_of t (blocked m) = Some (In_call op n) ->
  result_queue m = (t', r) :: rest ->
  _execute_operation_get t m =
  Some (Manager (conn m) (conn_open m) (worker_alive m) (operation_queue m)
                rest (unblock t (blocked m))
                (trace m ++ [Finished t op (Some t') (raise_or_return r)])).
Proof. unfold _execute_operation_get. now intros -> ->. Qed.

(** What the worker does with a request at the head of its queue, in any
    state: perform it, answer it, keep running. *)
Lemma worker_performs (m : manager) (now : Z) (t : tid) (op : operation)
  (rest : list (option (tid * operation))) :
  worker_alive m = true ->
  operation_queue m = Some (t, op) :: rest ->
  _worker now m =
  Some (Manager (fst (perform (conn m) now op)) (conn_open m) true rest
                (result_queue m ++ [(t, snd (perform (conn m) now op))])
                (blocked m)
                (trace m ++ [Executed t op (snd (perform (conn m) now op))])).
Proof.
  intros A Q. unfold _worker. rewrite A, Q. simpl.
  now destruct (perform (conn m) now op).
Qed.

Lemma call_runs (t : tid) (op : operation) (now : Z) (m : manager) :
  quiet m -> idle t m -> run (call t op now) m = Some (after_call t op now m).
Proof.
  intros (A & Q & R) I. unfold call. cbn [run step].
  rewrite (put_enabled t op default_timeout m I).
  erewrite worker_performs; [|exact A|cbn [operation_queue]; now rewrite Q].
  cbn [conn conn_open result_queue blocked trace].
  erewrite get_enabled;
    [|cbn [blocked]; apply waiting_of_block
     |cbn [result_queue]; rewrite R; reflexivity].
  unfold after_call. cbn [conn conn_open worker_alive operation_queue blocked trace].
  now rewrite unblock_block, <- app_assoc.
Qed.

Lemma after_call_quiet (t : tid) (op : operation) (now : Z) (m : manager) :
  quiet (after_call t op now m).
Proof. repeat split. Qed.

Lemma after_call_idle (t t' : tid) (op : operation) (now : Z) (m : manager) :
  idle t' m -> idle t' (after_call t op now m).
Proof.
  unfold idle, after_call. simpl. intros I.
  destruct (Nat.eq_dec t' t) as [->|N]; [apply waiting_of_unblock|].
  now rewrite waiting_of_unblock_other.
Qed.

(** ** Replies of the worker and what the Gateway returns *)

Lemma perform_insert (d d' : database) (now : Z) (q : statement)
  (params : list value) (c : cursor) :
  execute d now (Some q) params = Done d' c ->
  perform d now (insert q params) = (d', Success (some_int (lastrowid c))).
Proof. unfold perform, insert, attempt. now intros ->. Qed.

Lemma perform_update (d d' : database) (now : Z) (q : statement)
  (params : list value) (c : cursor) :
  execute d now (Some q) params = Done d' c ->
  perform d now (update q params) = (d', Success (P_int (rowcount c))).
Proof. unfold perform, update, attempt. now intros ->. Qed.

Lemma perform_delete (d d' : database) (now : Z) (q : statement)
  (params : list value) (c : cursor) :
  execute d now (Some q) params = Done d' c ->
  perform d now (delete q params) = (d', Success (P_int (rowcount c))).
Proof. unfold perform, delete, attempt. now intros ->. Qed.

Lemma call_answers (m : manager) (t : tid) (op : operation) (now : Z)
  (d' : database) (e : result) :
  quiet m -> idle t m -> perform (conn m) now op = (d', e) ->
  answers m t op now d' e.
Proof.
  intros Q I P. exists (after_call t op now m). split; [now apply call_runs|].
  split; [unfold after_call; now rewrite P|].
  split; [unfold after_call; now rewrite P|].
  split; [apply after_call_quiet|now apply after_call_idle].
Qed.

Lemma worker_serves (m : manager) (now : Z) (t : tid) (op : operation)
  (d' : database) (e : result) :
  worker_alive m = true -> hd_error (operation_queue m) = Some (Some (t, op)) ->
  perform (conn m) now op = (d', e) ->
  serves m now t d' e.
Proof.
  intros A H P. destruct (operation_queue m) as [|x rest] eqn:Q; [discriminate|].
  simpl in H. injection H as ->.
  eexists. split; [apply worker_performs with (rest := rest); eassumption|].
  rewrite P. cbn. rewrite Q. repeat split.
Qed.

(** The worker's side of [insert]: an INSERT statement that goes through is
    answered with 'success' and the id the store has just given to the new
    row, an id no earlier row has and the id of the one row added, in
    whatever state the worker finds the request. *)
Theorem worker_replies_new_row_id (m : manager) (now : Z) (t : tid)
  (cols : list field) (params : list value) (d : database) (c : cursor) :
  worker_alive m = true ->
  hd_error (operation_queue m) = Some (Some (t, insert (Insert cols) params)) ->
  execute (conn m) now (Some (Insert cols)) params = Done d c ->
  serves m now t d (Success (P_int (next_id (conn m)))) /\
  ~ In (next_id (conn m)) (ids (conn m)) /\
  rows_of d = rows_of (conn m) ++ [new_row (conn m) now cols params] /\
  id (new_row (conn m) now cols params) = next_id (conn m) /\
  last_insert_rowid d = next_id (conn m).
Proof.
  intros A H E. pose proof (perform_insert _ _ _ _ _ _ E) as P.
  destruct (execute_insert_done _ _ _ _ _ _ E) as (R & L & _).
  rewrite L in P. cbn [some_int] in P.
  split; [now apply worker_serves with (op := insert (Insert cols) params)|].
  split; [apply next_id_fresh|]. split; [exact R|]. split; [reflexivity|].
  apply execute_done in E.
  now destruct E as (stmt & rs & [= <-] & _ & _ & _ & -> & _).
Qed.

Lemma filter_id_absent (i : Z) (rs : list row) :
  ~ In i (map id rs) ->
  filter (fun r => Z.eqb (id r) i) rs = [] /\
  filter (fun r => negb (Z.eqb (id r) i)) rs = rs.
Proof.
  induction rs as [|r rs IH]; simpl; [auto|].
  intros N. destruct (Z.eqb_spec (id r) i) as [E|E]; [tauto|]. simpl.
  destruct IH as [A B]; [tauto|]. now rewrite A, B.
Qed.

Lemma filter_id_present (i : Z) (rs : list row) :
  NoDup (map id rs) -> In i (map id rs) ->
  length (filter (fun r => Z.eqb (id r) i) rs) = 1%nat /\
  ~ In i (map id (filter (fun r => negb (Z.eqb (id r) i)) rs)) /\
  length rs = S (length (filter (fun r => negb (Z.eqb (id r) i)) rs)).
Proof.
  induction rs as [|r rs IH]; simpl; [tauto|].
  intros D H. inversion D as [|? ? Hr Hrs]; subst.
  destruct (Z.eqb_spec (id r) i) as [E|E]; simpl.
  - subst i. destruct (filter_id_absent (id r) rs Hr) as [A B].
    rewrite A, B. auto.
  - destruct H as [H|H]; [congruence|].
    destruct (IH Hrs H) as (A & B & C). rewrite A, <- C.
    repeat split; auto. intros [F|F]; [congruence|tauto].
Qed.

(** DELETE ... WHERE id = ? on an existing table never raises. *)
Lemma delete_by_id_done (d0 : database) (now : Z) (i : Z) (rs : list row) :
  table d0 = Some rs ->
  execute d0 now (Some (Delete Id_is)) [V_int i] =
  Done (Database (Some (filter (fun r => negb (Z.eqb (id r) i)) rs))
                 (sequence d0) (last_insert_rowid d0))
       (Cursor (Some (last_insert_rowid d0))
               (Z.of_nat (length (filter (fun r => Z.eqb (id r) i) rs))) []).
Proof. unfold execute. now intros ->. Qed.

(** The worker's side of [update] and [delete]: a statement that goes
    through is answered with 'success' and [cursor.rowcount], in whatever
    state the worker finds the request; for UPDATE and DELETE statements
    that is the number of rows the WHERE clause matches.  Deleting by an id
    that is in the table counts 1 and removes that row; deleting by an id
    that is not there counts 0, raises nothing and leaves the table as it
    was. *)
Theorem worker_replies_affected_rows (m : manager) (now : Z) (t : tid) :
  worker_alive m = true ->
  (forall (q : statement) (params : list value) (d : database) (c : cursor),
      execute (conn m) now (Some q) params = Done d c ->
      (hd_error (operation_queue m) = Some (Some (t, update q params)) ->
       serves m now t d (Success (P_int (rowcount c)))) /\
      (hd_error (operation_queue m) = Some (Some (t, delete q params)) ->
       serves m now t d (Success (P_int (rowcount c))))) /\
  (forall (w : cond) (v : value) (ps : list value) (d : database) (c : cursor),
      execute (conn m) now (Some (Update_status w)) (v :: ps) = Done d c ->
      rowcount c = Z.of_nat (length (filter (matches w ps) (rows_of (conn m))))) /\
  (forall (w : cond) (ps : list value) (d : database) (c : cursor),
      execute (conn m) now (Some (Delete w)) ps = Done d c ->
      rowcount c = Z.of_nat (length (filter (matches w ps) (rows_of (conn m)))) /\
      rows_of d = filter (fun r => negb (matches w ps r)) (rows_of (conn m))) /\
  (forall i : Z,
      well_formed (conn m) -> table (conn m) <> None ->
      exists (d : database) (c : cursor),
        execute (conn m) now (Some (Delete Id_is)) [V_int i] = Done d c /\
        (In i (ids (conn m)) ->
         rowcount c = 1 /\ ~ In i (ids d) /\
         row_count (conn m) = S (row_count d)) /\
        (~ In i (ids (conn m)) -> rowcount c = 0 /\ d = conn m)).
Proof.
  intros A. split; [|split; [|split]].
  - intros q params d c E. split; intros H.
    + apply worker_serves with (op := update q params); try assumption.
      now apply perform_update.
    + apply worker_serves with (op := delete q params); try assumption.
      now apply perform_delete.
  - intros w v ps d c E. apply execute_done in E.
    destruct E as (? & rs & [= <-] & T & _ & _ & ->).
    unfold rows_of. now rewrite T.
  - intros w ps d c E. apply execute_done in E.
    destruct E as (? & rs & [= <-] & T & _ & -> & ->).
    unfold rows_of. now rewrite T.
  - intros i W T. destruct (table (conn m)) as [rs|] eqn:E; [|congruence].
    eexists. eexists. split; [apply delete_by_id_done; exact E|].
    unfold well_formed, ids, row_count, rows_of in *. rewrite E in *.
    cbn [rowcount table]. split.
    + intros H. destruct (filter_id_present i rs W H) as (F & G & L).
      rewrite F. auto.
    + intros H. destruct (filter_id_absent i rs H) as [F G].
      rewrite F, G. split; [reflexivity|].
      destruct (conn m); simpl in *; congruence.
Qed.

Lemma perform_raises (d0 : database) (now : Z) (k : op_type)
  (q : option statement) (params : list value) (msg : string) :
  k <> K_init_db -> execute d0 now q params = Raises msg ->
  perform d0 now (k, q, params) = (d0, Error msg).
Proof. intros N E. destruct k; [congruence| | | | |]; simpl; now rewrite E. Qed.

(** A text the parser rejects makes [execute] raise, whatever the file
    holds. *)
Lemma malformed_query_raises (d0 : database) (now : Z) (token : string)
  (params : list value) :
  execute d0 now (Some (Not_sql token)) params = Raises (syntax_error token).
Proof. reflexivity. Qed.

(** The worker's side of a failure: when executing a request raises,
    whatever the reason, the worker catches the exception, puts an 'error'
    reply carrying [str(e)] on the reply queue, leaves the store untouched
    and keeps running with its connection as it was; the request behind it
    is then served as if the failed one had never been made. *)
Theorem worker_reports_errors_and_goes_on (m : manager) (now : Z) (t : tid)
  (k : op_type) (q : option statement) (params : list value) (msg : string)
  (rest : list (option (tid * operation))) :
  worker_alive m = true ->
  operation_queue m = Some (t, (k, q, params)) :: rest ->
  k <> K_init_db ->
  execute (conn m) now q params = Raises msg ->
  exists m' : manager,
    _worker now m = Some m' /\
    result_queue m' = result_queue m ++ [(t, Error msg)] /\
    trace m' = trace m ++ [Executed t (k, q, params) (Error msg)] /\
    conn m' = conn m /\ worker_alive m' = true /\
    conn_open m' = conn_open m /\ operation_queue m' = rest /\
    forall (t' : tid) (op' : operation) (now' : Z) (d' : database)
           (r' : result) (rest' : list (option (tid * operation))),
      rest = Some (t', op') :: rest' ->
      perform (conn m) now' op' = (d', r') ->
      serves m' now' t' d' r'.
Proof.
  intros A Q N E. pose proof (perform_raises _ _ _ _ _ _ N E) as P.
  eexists. split; [apply worker_performs with (rest := rest); eassumption|].
  rewrite P. cbn. repeat split.
  intros t' op' now' d' r' rest' -> P'.
  apply worker_serves with (op := op'); [reflexivity|reflexivity|exact P'].
Qed.

(** ** Traces and queues grow at the end *)

Lemma executed_app (a b : list event) :
  executed (a ++ b) = executed a ++ executed b.
Proof.
  induction a as [|e a IH]; simpl; [reflexivity|].
  destruct e; simpl; now rewrite IH.
Qed.

Lemma queued_app (a b : list (option (tid * operation))) :
  queued (a ++ b) = queued a ++ queued b.
Proof.
  induction a as [|[x|] a IH]; simpl; now rewrite ?IH.
Qed.

Lemma submitted_app (a b : list action) :
  submitted (a ++ b) = submitted a ++ submitted b.
Proof.
  induction a as [|x a IH]; simpl; [reflexivity|].
  destruct x; simpl; now rewrite IH.
Qed.

Lemma new_ids_app (a b : list event) :
  new_ids (a ++ b) = new_ids a ++ new_ids b.
Proof.
  induction a as [|e a IH]; simpl; [reflexivity|].
  destruct e as [t [[k q] ps] r| | |]; simpl; try assumption.
  destruct k, r as [[]|]; simpl; now rewrite ?IH.
Qed.

Lemma successful_inserts_app (a b : list event) :
  successful_inserts (a ++ b) = (successful_inserts a + successful_inserts b)%nat.
Proof.
  induction a as [|e a IH]; simpl; [reflexivity|].
  destruct e as [t [[k q] ps] r| | |]; simpl; try assumption.
  destruct k, r; simpl; now rewrite ?IH.
Qed.

Lemma returned_inserts_app (a b : list event) :
  returned_inserts (a ++ b) = (returned_inserts a + returned_inserts b)%nat.
Proof.
  induction a as [|e a IH]; simpl; [reflexivity|].
  destruct e as [|t [[k q] ps] o r| |]; simpl; try assumption.
  destruct k, r; simpl; now rewrite ?IH.
Qed.

Lemma successes_app (a b : list (tid * result)) :
  successes (a ++ b) = (successes a + successes b)%nat.
Proof.
  induction a as [|[t [p|msg]] a IH]; simpl; now rewrite ?IH.
Qed.

(** ** FIFO *)

(** Every step keeps the requests in line: what has been executed followed by
    what is queued only ever grows at the end, by the request just put. *)
Lemma step_keeps_order (a : action) (m m' : manager) :
  step a m = Some m' ->
  executed (trace m') ++ queued (operation_queue m') =
  (executed (trace m) ++ queued (operation_queue m)) ++ submitted [a].
Proof.
  destruct a as [t op n|now|t|t|t|t|t]; simpl.
  - unfold _execute_operation_put. destruct (waiting_of t (blocked m)); [discriminate|].
    intros [= <-]. simpl. now rewrite queued_app, app_assoc.
  - unfold _worker. destruct (worker_alive m); [|discriminate]. simpl.
    destruct (operation_queue m) as [|[[t op]|] rest] eqn:Q.
    + intros [= <-]. rewrite Q. simpl. now rewrite !app_nil_r.
    + destruct (perform (conn m) now op) as [d r]. intros [= <-]. simpl.
      rewrite executed_app, !app_nil_r, <- app_assoc. reflexivity.
    + intros [= <-]. simpl. now rewrite executed_app, !app_nil_r.
  - unfold wait. destruct (waiting_of t (blocked m)) as [[op [|n]|[|n]]|];
      try discriminate.
    + destruct (result_queue m); [|discriminate]. intros [= <-]. simpl.
      now rewrite app_nil_r.
    + destruct (worker_alive m); [|discriminate]. intros [= <-]. simpl.
      now rewrite app_nil_r.
  - unfold _execute_operation_get.
    destruct (waiting_of t (blocked m)) as [[op n|n]|]; try discriminate.
    destruct (result_queue m) as [|[t' r] rest]; [discriminate|].
    intros [= <-]. simpl. now rewrite executed_app, !app_nil_r.
  - unfold _execute_operation_empty.
    destruct (waiting_of t (blocked m)) as [[op [|n]|n]|]; try discriminate.
    destruct (result_queue m); [|discriminate].
    intros [= <-]. simpl. now rewrite executed_app, !app_nil_r.
  - unfold close. destruct (waiting_of t (blocked m)); [discriminate|].
    intros [= <-]. simpl. now rewrite queued_app, !app_nil_r.
  - unfold close_return.
    destruct (waiting_of t (blocked m)) as [[op n|n]|]; try discriminate.
    destruct (negb (worker_alive m) || Nat.eqb n 0); [|discriminate].
    intros [= <-]. simpl. now rewrite executed_app, !app_nil_r.
Qed.

Lemma run_keeps_order (acts : list action) (m m' : manager) :
  run acts m = Some m' ->
  executed (trace m') ++ queued (operation_queue m') =
  (executed (trace m) ++ queued (operation_queue m)) ++ submitted acts.
Proof.
  revert m. induction acts as [|a acts IH]; intros m; simpl.
  - intros [= <-]. now rewrite app_nil_r.
  - destruct (step a m) as [m1|] eqn:S; [|discriminate]. intros R.
    rewrite (IH _ R), (step_keeps_order _ _ _ S), <- app_assoc.
    f_equal. symmetry. apply (submitted_app [a] acts).
Qed.

(** *** A request is executed before the requests its thread makes later *)

(** What one step does to the trace and to the store: nothing, or one event
    that is not the worker's, or the worker performs one request. *)
Lemma step_shape (a : action) (m m' : manager) :
  step a m = Some m' ->
  (trace m' = trace m /\ conn m' = conn m) \/
  (exists e : event,
      trace m' = trace m ++ [e] /\ conn m' = conn m /\
      executed [e] = [] /\ deleting e = false) \/
  (exists (t : tid) (op : operation) (now : Z) (r : result),
      trace m' = trace m ++ [Executed t op r] /\
      perform (conn m) now op = (conn m', r)).
Proof.
  destruct a as [t op n|now|t|t|t|t|t]; simpl.
  - unfold _execute_operation_put.
    destruct (waiting_of t (blocked m)); [discriminate|].
    intros [= <-]. now left.
  - unfold _worker. destruct (worker_alive m); [|discriminate]. simpl.
    destruct (operation_queue m) as [|[[t op]|] rest].
    + intros [= <-]. now left.
    + destruct (perform (conn m) now op) as [d r] eqn:P. intros [= <-].
      right. right. now exists t, op, now, r.
    + intros [= <-]. right. left. now exists Worker_exit.
  - unfold wait.
    destruct (waiting_of t (blocked m)) as [[op [|n]|[|n]]|]; try discriminate.
    + destruct (result_queue m); [|discriminate]. intros [= <-]. now left.
    + destruct (worker_alive m); [|discriminate]. intros [= <-]. now left.
  - unfold _execute_operation_get.
    destruct (waiting_of t (blocked m)) as [[op n|n]|]; try discriminate.
    destruct (result_queue m) as [|[t' r] rest]; [discriminate|].
    intros [= <-]. right. left. eexists. simpl. now repeat split.
  - unfold _execute_operation_empty.
    destruct (waiting_of t (blocked m)) as [[op [|n]|n]|]; try discriminate.
    destruct (result_queue m); [|discriminate].
    intros [= <-]. right. left. eexists. simpl. now repeat split.
  - unfold close. destruct (waiting_of t (blocked m)); [discriminate|].
    intros [= <-]. now left.
  - unfold close_return.
    destruct (waiting_of t (blocked m)) as [[op n|n]|]; try discriminate.
    destruct (negb (worker_alive m) || Nat.eqb n 0); [|discriminate].
    intros [= <-]. right. left. eexists. simpl. now repeat split.
Qed.

(** Where an event sits in a trace that has just grown by one. *)
Lemma trace_grown (l : list event) (y : event) (e1 : list event) (x : event)
  (e2 : list event) :
  l ++ [y] = e1 ++ x :: e2 ->
  (e2 = [] /\ l = e1 /\ y = x) \/
  (exists e2', e2 = e2' ++ [y] /\ l = e1 ++ x :: e2').
Proof.
  destruct e2 as [|z e2 _] using rev_ind.
  - intros H. apply app_inj_tail in H. left. tauto.
  - rewrite app_comm_cons, app_assoc. intros H. apply app_inj_tail in H.
    right. exists e2. destruct H as [-> ->]. split; reflexivity.
Qed.

(** A request that is not a DELETE keeps every job that is stored. *)
Lemma perform_keeps_rows (d d' : database) (now : Z) (t : tid)
  (op : operation) (res : result) (cols : list field) (params : list value)
  (i : Z) (r : row) :
  perform d now op = (d', res) ->
  deleting (Executed t op res) = false ->
  In r (rows_of d) -> holds cols params i r ->
  exists r' : row, In r' (rows_of d') /\ holds cols params i r'.
Proof.
  intros P N I H. destruct op as [[k q] ps].
  assert (K : forall c, execute d now q ps = Done d' c ->
                        res <> Success P_none \/ True ->
                        (forall w, q <> Some (Delete w)) ->
                        exists r', In r' (rows_of d') /\ holds cols params i r').
  { intros c E _ Q. apply execute_done in E.
    destruct E as (stmt & rs & -> & T & _ & E).
    unfold rows_of in *. rewrite T in I.
    destruct stmt as [cs|w|w|cs w|w|cs limit|token].
    - destruct E as (_ & -> & _). simpl. exists r. split; [|exact H].
      apply in_or_app. now left.
    - destruct E as (-> & _). simpl.
      exists (if matches w (tl ps) r then set_status (hd V_null ps) r else r).
      split; [now apply in_map with
                (f := fun x => if matches w (tl ps) x
                               then set_status (hd V_null ps) x else x)|].
      now destruct (matches w (tl ps) r).
    - now destruct (Q w).
    - destruct E as (-> & _). rewrite T. now exists r.
    - destruct E as (-> & _). rewrite T. now exists r.
    - destruct E as (-> & _). rewrite T. now exists r.
    - contradiction. }
  unfold perform, attempt in P. destruct k.
  - destruct (create_table_done d) as (d1 & c & E & R & _).
    rewrite E in P. injection P as <- <-. rewrite R. now exists r.
  - destruct (execute d now q ps) as [d1 c|msg] eqn:E;
      injection P as <- <-; [|now exists r].
    apply (K c eq_refl); [now right|]. intros w ->. discriminate.
  - destruct (execute d now q ps) as [d1 c|msg] eqn:E;
      injection P as <- <-; [|now exists r].
    apply (K c eq_refl); [now right|]. intros w ->. discriminate.
  - destruct (execute d now q ps) as [d1 c|msg] eqn:E;
      injection P as <- <-; [|now exists r].
    apply (K c eq_refl); [now right|]. intros w ->. discriminate.
  - destruct (execute d now q ps) as [d1 c|msg] eqn:E;
      injection P as <- <-; [|now exists r].
    apply (K c eq_refl); [now right|]. intros w ->. discriminate.
  - destruct (execute d now q ps) as [d1 c|msg] eqn:E;
      injection P as <- <-; [|now exists r].
    apply (K c eq_refl); [now right|]. intros w ->. discriminate.
Qed.

(** An INSERT that went through has stored its job under the id in the
    reply. *)
Lemma perform_insert_row (d d' : database) (now : Z) (cols : list field)
  (params : list value) (i : Z) :
  perform d now (K_insert, Some (Insert cols), params)
    = (d', Success (P_int i)) ->
  exists r : row, In r (rows_of d') /\ holds cols params i r.
Proof.
  unfold perform, attempt.
  destruct (execute d now (Some (Insert cols)) params) as [d1 c|msg] eqn:E;
    [|discriminate].
  destruct (execute_insert_done _ _ _ _ _ _ E) as (R & L & _).
  rewrite L. intros [= <- <-]. exists (new_row d now cols params).
  split; [rewrite R; apply in_or_app; right; now left|].
  now repeat split.
Qed.

Lemma step_keeps_rows (base evs : list event) (a : action) (m m' : manager) :
  trace m = base ++ evs -> inserted_rows_kept evs (conn m) ->
  step a m = Some m' ->
  exists evs' : list event,
    trace m' = base ++ evs' /\ inserted_rows_kept evs' (conn m').
Proof.
  intros T K S. apply step_shape in S.
  destruct S as [[Tr C]|[(e & Tr & C & X & D)|(t & op & now & r & Tr & P)]].
  - exists evs. rewrite Tr, C. now split.
  - exists (evs ++ [e]). rewrite Tr, T, C, app_assoc. split; [reflexivity|].
    intros e1 t cols ps i e2 H N. apply trace_grown in H.
    destruct H as [(_ & _ & ->)|(e2' & -> & ->)]; [discriminate|].
    rewrite existsb_app in N. apply orb_false_iff in N.
    now apply (K e1 t cols ps i e2').
  - exists (evs ++ [Executed t op r]). rewrite Tr, T, app_assoc.
    split; [reflexivity|].
    intros e1 t' cols ps i e2 H N. apply trace_grown in H.
    destruct H as [(_ & _ & [= -> -> ->])|(e2' & -> & ->)].
    + now apply perform_insert_row with (d := conn m) (now := now).
    + rewrite existsb_app in N. apply orb_false_iff in N.
      destruct N as [N1 N2]. simpl in N2. apply orb_false_iff in N2.
      destruct (K e1 t' cols ps i e2' eq_refl N1) as (r1 & I & H).
      apply (perform_keeps_rows _ _ _ t _ _ cols ps i r1 P); tauto.
Qed.

Lemma run_keeps_rows (acts : list action) (base evs : list event)
  (m m' : manager) :
  trace m = base ++ evs -> inserted_rows_kept evs (conn m) ->
  run acts m = Some m' ->
  exists evs' : list event,
    trace m' = base ++ evs' /\ inserted_rows_kept evs' (conn m').
Proof.
  revert evs m. induction acts as [|a acts IH]; intros evs m T K; simpl.
  - intros [= <-]. now exists evs.
  - destruct (step a m) as [m1|] eqn:S; [|discriminate].
    destruct (step_keeps_rows _ _ _ _ _ T K S) as (evs1 & T1 & K1).
    now apply (IH evs1).
Qed.

Lemma executed_event (t : tid) (op : operation) (evs : list event) :
  In (t, op) (executed evs) ->
  exists (e1 : list event) (r : result) (e2 : list event),
    evs = e1 ++ Executed t op r :: e2.
Proof.
  induction evs as [|e evs IH]; simpl; [tauto|].
  destruct e as [t' op' r'| | |]; simpl;
    try (intros H; destruct (IH H) as (e1 & r & e2 & ->);
         now eexists (_ :: e1), r, e2).
  intros [[= -> ->]|H].
  - now exists [], r', evs.
  - destruct (IH H) as (e1 & r & e2 & ->). now eexists (_ :: e1), r, e2.
Qed.

Lemma by_thread_app (t : tid) (a b : list (tid * operation)) :
  by_thread t (a ++ b) = by_thread t a ++ by_thread t b.
Proof. apply filter_app. Qed.

Lemma by_thread_own (t : tid) (op : operation) (l : list (tid * operation)) :
  by_thread t ((t, op) :: l) = (t, op) :: by_thread t l.
Proof. unfold by_thread. simpl. now rewrite Nat.eqb_refl. Qed.

(** A queue that ends with an insert and an update and has the update at
    the head of what is left of it has the insert among what is gone. *)
Lemma gone_before (gone left waiting : list (tid * operation))
  (ins upd : tid * operation) :
  gone ++ upd :: left = waiting ++ [ins; upd] ->
  ~ In upd waiting -> ins <> upd -> In ins gone.
Proof.
  revert gone. induction waiting as [|q waiting IH]; intros gone E N D.
  - destruct gone as [|y [|z gone]]; simpl in E.
    + injection E as E _. congruence.
    + injection E as -> _. now left.
    + injection E as _ _ E. destruct gone; discriminate.
  - destruct gone as [|y gone]; simpl in E.
    + injection E as E _. destruct N. now left.
    + injection E as _ E. right. apply IH; [exact E| |exact D].
      intros H. apply N. now right.
Qed.

(** The insert a thread made before its update has been executed by the
    time the update is at the head of the queue. *)
Lemma insert_precedes_update (acts : list action) (m m' : manager) (t : tid)
  (ins upd : operation) (evs : list event) :
  run acts m = Some m' -> trace m' = trace m ++ evs ->
  ~ In (t, upd) (queued (operation_queue m)) ->
  by_thread t (submitted acts) = [(t, ins); (t, upd)] ->
  ins <> upd ->
  hd_error (operation_queue m') = Some (Some (t, upd)) ->
  In (t, ins) (executed evs).
Proof.
  intros R T Q S N H. apply run_keeps_order in R.
  rewrite T, executed_app, <- !app_assoc in R. apply app_inv_head in R.
  apply (f_equal (by_thread t)) in R.
  rewrite !by_thread_app, S in R.
  destruct (operation_queue m') as [|x rest]; [discriminate|].
  simpl in H. injection H as ->. cbn [queued] in R.
  rewrite by_thread_own in R.
  apply gone_before in R.
  - apply filter_In in R. tauto.
  - intros I. apply filter_In in I. tauto.
  - congruence.
Qed.

(** C4: the worker executes requests in the order in which they were put on
    the operation queue: in every interleaving, the requests executed so far
    followed by the requests still queued are exactly the requests
    submitted, in submission order, so the k-th request executed is the k-th
    submitted.  In particular, whatever other threads do in between,
    whatever is waiting in the queues and whoever takes which reply: when a
    thread has put an insert and afterwards an update, then by the time its
    update is at the head of the queue its insert has been executed; and if
    the insert went through and no DELETE has been executed since, the row
    is in the table, so that an update whose WHERE clause selects the row
    counts it among the rows affected and sets its status.  (The update
    must not be waiting in the queue already, from an earlier call of the
    thread that timed out: nothing would tell the two requests apart.) *)
Theorem operations_run_in_fifo_order :
  (forall (d : database) (acts : list action) (m : manager),
      run acts (started d) = Some m ->
      submitted acts = executed (trace m) ++ queued (operation_queue m) /\
      forall (k : nat) (x : tid * operation),
        nth_error (executed (trace m)) k = Some x ->
        nth_error (submitted acts) k = Some x) /\
  (forall (m m' : manager) (t : tid) (cols : list field)
          (params : list value) (w : cond) (v : value) (key : list value)
          (n1 n2 : nat) (between after : list action) (now : Z),
      ~ In (t, update (Update_status w) (v :: key))
           (queued (operation_queue m)) ->
      by_thread t (submitted between) = [] ->
      by_thread t (submitted after) = [] ->
      run (Call t (insert (Insert cols) params) n1 :: between ++
           Call t (update (Update_status w) (v :: key)) n2 :: after) m
        = Some m' ->
      worker_alive m' = true ->
      hd_error (operation_queue m')
        = Some (Some (t, update (Update_status w) (v :: key))) ->
      exists (e1 : list event) (r0 : result) (e2 : list event),
        trace m' = trace m ++
          e1 ++ Executed t (insert (Insert cols) params) r0 :: e2 /\
        forall i : Z,
          r0 = Success (P_int i) -> existsb deleting e2 = false ->
          exists r : row,
            In r (rows_of (conn m')) /\ holds cols params i r /\
            (length key = arity w -> matches w key r = true ->
             exists (d' : database) (n : Z),
               serves m' now t d' (Success (P_int n)) /\ 1 <= n /\
               In (set_status v r) (rows_of d'))).
Proof.
  split.
  - intros d acts m R. apply run_keeps_order in R. simpl in R.
    split; [now symmetry|]. intros k x H. rewrite <- R.
    rewrite nth_error_app1; [assumption|].
    apply nth_error_Some. congruence.
  - intros m m' t cols params w v key n1 n2 between after now Q B A R W H.
    assert (K0 : inserted_rows_kept [] (conn m)).
    { intros [|? ?] ? ? ? ? ? ?; discriminate. }
    destruct (run_keeps_rows _ (trace m) [] m m' (eq_sym (app_nil_r _)) K0 R)
      as (evs & T & K).
    assert (I : In (t, insert (Insert cols) params) (executed evs)).
    { apply (insert_precedes_update _ _ _ _ _
               (update (Update_status w) (v :: key)) _ R T Q);
        [|discriminate|exact H].
      cbn [submitted]. rewrite by_thread_own, submitted_app, by_thread_app, B.
      cbn [submitted app]. now rewrite by_thread_own, A. }
    destruct (executed_event _ _ _ I) as (e1 & r0 & e2 & ->).
    exists e1, r0, e2. split; [exact T|]. intros i -> N.
    destruct (K e1 t cols params i e2 eq_refl N) as (r & Ir & Hr).
    exists r. split; [exact Ir|]. split; [exact Hr|]. intros L M.
    unfold rows_of in Ir.
    destruct (table (conn m')) as [rs|] eqn:Tb; [|contradiction].
    assert (E : execute (conn m') now (Some (Update_status w)) (v :: key) =
                Done (Database
                        (Some (map (fun x => if matches w key x
                                             then set_status v x else x) rs))
                        (sequence (conn m')) (last_insert_rowid (conn m')))
                     (Cursor (Some (last_insert_rowid (conn m')))
                             (Z.of_nat (length (filter (matches w key) rs)))
                             [])).
    { unfold execute. rewrite Tb. cbn [place_holders length].
      rewrite L, Nat.eqb_refl. reflexivity. }
    apply perform_update in E. cbn [rowcount] in E.
    eexists. eexists. split; [|split].
    + apply worker_serves with (op := update (Update_status w) (v :: key));
        eassumption.
    + assert (In r (filter (matches w key) rs)) by (apply filter_In; tauto).
      destruct (filter (matches w key) rs); [contradiction|]. simpl. lia.
    + unfold rows_of. simpl.
      apply in_map with (f := fun x => if matches w key x
                                       then set_status v x else x) in Ir.
      now rewrite M in Ir.
Qed.

(** ** Serialization of concurrent inserts *)

Lemma Forall_unblock (P : tid * waiting -> Prop) (t : tid)
  (b : list (tid * waiting)) :
  Forall P b -> Forall P (unblock t b).
Proof.
  intros H. apply Forall_forall. intros x Hx. apply filter_In in Hx.
  rewrite Forall_forall in H. now apply H.
Qed.

Lemma Forall_waiting_of (P : tid * waiting -> Prop) (t : tid) (w : waiting)
  (b : list (tid * waiting)) :
  Forall P b -> waiting_of t b = Some w -> P (t, w).
Proof.
  induction 1 as [|[t' w'] b Hx Hb IH]; simpl; [discriminate|].
  destruct (Nat.eqb_spec t t') as [->|N]; [now intros [= <-]|assumption].
Qed.

Lemma Forall_block (P : tid * waiting -> Prop) (t : tid) (w : waiting)
  (b : list (tid * waiting)) :
  P (t, w) -> Forall P b -> Forall P (block t w b).
Proof. intros H F. constructor; [assumption|now apply Forall_unblock]. Qed.

Ltac tally :=
  rewrite ?new_ids_app, ?successful_inserts_app, ?returned_inserts_app,
    ?successes_app, ?length_app;
  simpl; lia.

Lemma serial_step (d : database) (a : action) (m m' : manager) :
  serial d m -> inserting a = true -> step a m = Some m' -> serial d m'.
Proof.
  intros [RA IU QI CI RC IC] G.
  destruct a as [t [[k q] ps] n|now|t|t|t|t|t]; simpl.
  - simpl in G. destruct k; try discriminate.
    destruct q as [[cols|?|?|? ?|?|? ?|?]|]; try discriminate.
    unfold _execute_operation_put.
    destruct (waiting_of t (blocked m)); [discriminate|]. intros [= <-].
    constructor; simpl; try assumption.
    + apply Forall_app. split; [assumption|]. now constructor.
    + now apply Forall_block.
  - unfold _worker. destruct (worker_alive m); [|discriminate]. simpl.
    destruct (operation_queue m) as [|[[t [[k q] ps]]|] rest] eqn:Q.
    + intros [= <-]. constructor; try assumption. now rewrite Q.
    + pose proof (Forall_inv QI) as H. pose proof (Forall_inv_tail QI) as H'.
      simpl in H. destruct k; try contradiction.
      destruct q as [[cols|?|?|? ?|?|? ?|?]|]; try contradiction.
      unfold perform, attempt.
      destruct (execute (conn m) now (Some (Insert cols)) ps) as [d' c|msg] eqn:E;
        intros [= <-].
      * destruct (execute_insert_done _ _ _ _ _ _ E) as (R & L & _).
        rewrite L. cbn [some_int].
        constructor; cbn [conn trace operation_queue result_queue blocked];
          try assumption.
        -- rewrite new_ids_app. simpl. unfold ids in *.
           rewrite R, map_app, RA, <- app_assoc. reflexivity.
        -- eapply execute_well_formed; eassumption.
        -- tally.
        -- tally.
      * constructor; cbn [conn trace operation_queue result_queue blocked];
          try assumption.
        -- rewrite new_ids_app. simpl. now rewrite app_nil_r.
        -- tally.
        -- tally.
    + intros [= <-].
      constructor; cbn [conn trace operation_queue result_queue blocked];
        try assumption.
      * rewrite new_ids_app. simpl. now rewrite app_nil_r.
      * exact (Forall_inv_tail QI).
      * tally.
      * tally.
  - unfold wait.
    destruct (waiting_of t (blocked m)) as [[op [|n]|[|n]]|] eqn:W;
      try discriminate.
    + destruct (result_queue m) eqn:R; [|discriminate]. intros [= <-].
      constructor; simpl; try assumption.
      apply Forall_block; [|assumption].
      exact (Forall_waiting_of insert_wait _ _ _ CI W).
    + destruct (worker_alive m); [|discriminate]. intros [= <-].
      constructor; simpl; try assumption. now apply Forall_block.
  - unfold _execute_operation_get.
    destruct (waiting_of t (blocked m)) as [[[[k q] ps] n|n]|] eqn:W;
      try discriminate.
    destruct (result_queue m) as [|[t' r] rest] eqn:R; [discriminate|].
    intros [= <-].
    pose proof (Forall_waiting_of insert_wait _ _ _ CI W) as H.
    unfold insert_wait in H. simpl in H. destruct k; try contradiction.
    constructor; cbn [conn trace operation_queue result_queue blocked];
      try assumption.
    + rewrite new_ids_app. simpl. now rewrite app_nil_r.
    + now apply Forall_unblock.
    + simpl in RC. destruct r; tally.
    + tally.
  - unfold _execute_operation_empty.
    destruct (waiting_of t (blocked m)) as [[[[k q] ps] [|n]|n]|] eqn:W;
      try discriminate.
    destruct (result_queue m) eqn:R; [|discriminate]. intros [= <-].
    constructor; cbn [conn trace operation_queue result_queue blocked];
      try assumption.
    + rewrite new_ids_app. simpl. now rewrite app_nil_r.
    + now apply Forall_unblock.
    + simpl in RC. destruct k; tally.
    + tally.
  - unfold close. destruct (waiting_of t (blocked m)); [discriminate|].
    intros [= <-]. constructor; simpl; try assumption.
    + apply Forall_app. split; [assumption|]. now constructor.
    + now apply Forall_block.
  - unfold close_return.
    destruct (waiting_of t (blocked m)) as [[op n|n]|]; try discriminate.
    destruct (negb (worker_alive m) || Nat.eqb n 0); [|discriminate].
    intros [= <-].
    constructor; cbn [conn trace operation_queue result_queue blocked];
      try assumption.
    + rewrite new_ids_app. simpl. now rewrite app_nil_r.
    + now apply Forall_unblock.
    + tally.
    + tally.
Qed.

Lemma serial_run (d : database) (acts : list action) (m m' : manager) :
  serial d m -> forallb inserting acts = true -> run acts m = Some m' ->
  serial d m'.
Proof.
  revert m. induction acts as [|a acts IH]; intros m S G; simpl.
  - now intros [= <-].
  - simpl in G. apply andb_prop in G. destruct G as [Ga Gs].
    destruct (step a m) as [m1|] eqn:E; [|discriminate].
    apply IH; [|assumption]. eapply serial_step; eassumption.
Qed.

Lemma perform_init_db (d : database) (now : Z) :
  exists d', perform d now init_db = (d', Success P_none) /\
             rows_of d' = rows_of d /\ table d' <> None /\
             sequence d' = sequence d /\ (table d <> None -> d' = d).
Proof.
  destruct (create_table_done d) as (d' & c & E & R & T & S & _ & I).
  exists d'. split; [|now repeat split].
  unfold perform, init_db, attempt. now rewrite E.
Qed.

(** The manager as [__init__] leaves it: started, 'init_db' called. *)
Lemma serial_constructed (d : database) (now : Z) :
  well_formed d -> serial d (after_call 0 init_db now (started d)).
Proof.
  intros W. destruct (perform_init_db (connect d) now) as (d' & P & R & _).
  change (rows_of (connect d)) with (rows_of d) in R.
  unfold after_call. cbn [conn started]. rewrite P.
  constructor; cbn; auto.
  - unfold ids. rewrite R. now rewrite app_nil_r.
  - unfold well_formed, ids in *. now rewrite R.
Qed.

(** C3: construct the manager, then let any number of threads call [insert]
    in any interleaving (time-outs and [close] included).  In every state
    reached, the ids in the table are the ids the file started with followed
    by the ids the worker reported for the inserts it performed without an
    exception, in the order it performed them: the row count has grown by
    exactly the number of successful inserts, every such insert has its row,
    and no id occurs twice.  Once all replies have been taken, the number of
    [insert] calls that returned a value is that same number. *)
Theorem concurrent_inserts_are_serialized (d : database) (now0 : Z)
  (acts : list action) (m : manager) :
  well_formed d ->
  forallb inserting acts = true ->
  run (call 0 init_db now0 ++ acts) (started d) = Some m ->
  ids (conn m) = ids d ++ new_ids (trace m) /\
  row_count (conn m) = (row_count d + successful_inserts (trace m))%nat /\
  NoDup (ids (conn m)) /\
  (result_queue m = [] ->
   returned_inserts (trace m) = successful_inserts (trace m)).
Proof.
  intros W G R. rewrite run_app, call_runs in R; [|repeat split|reflexivity].
  pose proof (serial_run d acts _ m (serial_constructed d now0 W) G R)
    as [RA IU _ _ RC IC].
  split; [assumption|]. split; [|split; [assumption|]].
  - unfold row_count. rewrite <- IC.
    unfold ids in RA. apply (f_equal (@length Z)) in RA.
    now rewrite length_app, !length_map in RA.
  - intros E. rewrite E in RC. simpl in RC. lia.
Qed.

(** ** One reply queue for all callers *)

(** C5: for any two callers that submit concurrently there is an
    interleaving in which each one is handed the reply to the other one's
    request: the reply queue is shared and nothing ties a reply to the
    request it answers. *)
Theorem replies_can_cross (m : manager) (t1 t2 : tid) (op1 op2 : operation)
  (now1 now2 : Z) :
  quiet m -> idle t1 m -> idle t2 m -> t1 <> t2 ->
  exists m' : manager,
    run (crossing t1 t2 op1 op2 now1 now2) m = Some m' /\
    submitted (crossing t1 t2 op1 op2 now1 now2) = [(t1, op1); (t2, op2)] /\
    trace m' = trace m ++
      [Executed t1 op1 (snd (perform (conn m) now1 op1));
       Finished t2 op2 (Some t1)
         (raise_or_return (snd (perform (conn m) now1 op1)));
       Executed t2 op2
         (snd (perform (fst (perform (conn m) now1 op1)) now2 op2));
       Finished t1 op1 (Some t2)
         (raise_or_return
            (snd (perform (fst (perform (conn m) now1 op1)) now2 op2)))].
Proof.
  intros (A & Q & R) I1 I2 N. unfold crossing. cbn [run step].
  rewrite (put_enabled t1 op1 default_timeout m I1).
  rewrite put_enabled;
    [|unfold idle; cbn [blocked];
      rewrite waiting_of_block_other; [exact I2|congruence]].
  cbn [conn conn_open worker_alive operation_queue result_queue blocked trace].
  rewrite Q, R. cbn [app].
  erewrite worker_performs; [|exact A|reflexivity].
  cbn [conn conn_open worker_alive operation_queue result_queue blocked trace app].
  erewrite get_enabled;
    [|cbn [blocked]; apply waiting_of_block|reflexivity].
  cbn [conn conn_open worker_alive operation_queue result_queue blocked trace].
  erewrite worker_performs; [|reflexivity|reflexivity].
  cbn [conn conn_open worker_alive operation_queue result_queue blocked trace app].
  erewrite get_enabled; [| |reflexivity].
  - eexists. split; [reflexivity|]. split; [reflexivity|].
    cbn [trace]. now rewrite <- !app_assoc.
  - cbn [blocked]. rewrite unblock_block, waiting_of_unblock_other by assumption.
    apply waiting_of_block.
Qed.

(** ** The status column *)



(** ** init_db *)

Lemma init_db_again (t : tid) (nows : list Z) (m : manager) :
  quiet m -> idle t m -> table (conn m) <> None ->
  exists m' : manager,
    run (flat_map (call t init_db) nows) m = Some m' /\
    conn m' = conn m /\
    trace m' = trace m ++
      flat_map (fun _ => [Executed t init_db (Success P_none);
                          Finished t init_db (Some t) (Returns P_none)]) nows /\
    quiet m' /\ idle t m'.
Proof.
  revert m. induction nows as [|now nows IH]; intros m Q I T.
  - exists m. cbn. now rewrite app_nil_r.
  - destruct (perform_init_db (conn m) now) as (d' & P & _ & _ & _ & E).
    rewrite (E T) in P.
    destruct (call_answers m t init_db now _ _ Q I P)
      as (m1 & R1 & T1 & C1 & Q1 & I1).
    destruct (IH m1 Q1 I1) as (m2 & R2 & C2 & T2 & Q2 & I2); [congruence|].
    exists m2. cbn [flat_map]. rewrite run_app, R1, R2, T2, T1, <- app_assoc.
    repeat split; try assumption; try apply Q2. congruence.
Qed.

(** C8: 'init_db' is create-if-absent.  On any file, with or without the
    table, the worker answers it with 'success' and no payload; afterwards
    the table exists with the rows and the id counter it had; a file that
    already has the table is left exactly as it was, so a second 'init_db'
    changes nothing.  Any number of 'init_db' calls through the Gateway all
    return None and leave the file as the first one left it. *)
Theorem init_db_is_idempotent (d0 : database) (now : Z) :
  exists d1 : database,
    perform d0 now init_db = (d1, Success P_none) /\
    table d1 <> None /\
    rows_of d1 = rows_of d0 /\
    sequence d1 = sequence d0 /\
    (table d0 <> None -> d1 = d0) /\
    (forall now' : Z, perform d1 now' init_db = (d1, Success P_none)) /\
    (forall (m : manager) (t : tid),
        conn m = d0 -> worker_alive m = true ->
        hd_error (operation_queue m) = Some (Some (t, init_db)) ->
        serves m now t d1 (Success P_none)) /\
    (forall (m : manager) (t : tid) (nows : list Z),
        conn m = d0 -> quiet m -> idle t m ->
        exists m' : manager,
          run (flat_map (call t init_db) (now :: nows)) m = Some m' /\
          conn m' = d1 /\
          trace m' = trace m ++
            flat_map (fun _ => [Executed t init_db (Success P_none);
                                Finished t init_db (Some t) (Returns P_none)])
                     (now :: nows) /\
          quiet m').
Proof.
  destruct (perform_init_db d0 now) as (d1 & P & R & T & S & E).
  exists d1. repeat (split; [assumption|]). split; [|split].
  - intros now'. destruct (perform_init_db d1 now') as (d2 & P2 & _ & _ & _ & E2).
    now rewrite (E2 T) in P2.
  - intros m t <- A H. now apply worker_serves with (op := init_db).
  - intros m t nows <- Q I.
    destruct (call_answers m t init_db now _ _ Q I P)
      as (m1 & R1 & T1 & C1 & Q1 & I1).
    destruct (init_db_again t nows m1 Q1 I1) as (m2 & R2 & C2 & T2 & Q2 & _);
      [congruence|].
    exists m2. cbn [flat_map]. rewrite run_app, R1, R2, T2, T1, <- app_assoc.
    repeat split; try apply Q2. congruence.
Qed.

(** ** Time-outs *)

Lemma block_block (t : tid) (w w' : waiting) (b : list (tid * waiting)) :
  block t w (block t w' b) = block t w b.
Proof. unfold block at 1. now rewrite unblock_block. Qed.

(** A caller that finds the reply queue empty can let exactly as many time
    units pass as its time-out says. *)
Lemma waits_run (t : tid) (op : operation) (k n : nat) (m : manager) :
  waiting_of t (blocked m) = Some (In_call op (n + k)) ->
  result_queue m = [] ->
  exists m' : manager,
    run (repeat (Wait t) n) m = Some m' /\
    waiting_of t (blocked m') = Some (In_call op k) /\
    unblock t (blocked m') = unblock t (blocked m) /\
    conn m' = conn m /\ conn_open m' = conn_open m /\
    worker_alive m' = worker_alive m /\
    operation_queue m' = operation_queue m /\
    result_queue m' = [] /\ trace m' = trace m.
Proof.
  revert m. induction n as [|n IH]; intros m W R.
  - exists m. cbn. repeat split; assumption.
  - cbn [repeat run step]. unfold wait. cbn [Nat.add] in W. rewrite W, R.
    edestruct IH as (m' & R' & W' & U' & H); cycle 2.
    + exists m'. split; [exact R'|]. split; [exact W'|].
      cbn [blocked conn conn_open worker_alive operation_queue result_queue
           trace] in *.
      split; [now rewrite U', unblock_block|exact H].
    + cbn [blocked]. apply waiting_of_block.
    + reflexivity.
Qed.

(** The part of C6 the code keeps: a call that sees no reply for [timeout]
    time units raises the time-out exception, and cannot wait any longer;
    its request stays on the operation queue. *)
Lemma timeout_raises (m : manager) (t : tid) (op : operation) (timeout : nat) :
  idle t m -> result_queue m = [] ->
  run (Call t op timeout :: repeat (Wait t) (S timeout)) m = None /\
  exists m' : manager,
    run (Call t op timeout :: repeat (Wait t) timeout ++ [Give_up t]) m
      = Some m' /\
    trace m' = trace m ++ [Finished t op None (Raised timed_out)] /\
    operation_queue m' = operation_queue m ++ [Some (t, op)] /\
    result_queue m' = [] /\ conn m' = conn m /\
    worker_alive m' = worker_alive m /\ idle t m'.
Proof.
  intros I R.
  pose (m1 := Manager (conn m) (conn_open m) (worker_alive m)
                      (operation_queue m ++ [Some (t, op)]) (result_queue m)
                      (block t (In_call op timeout) (blocked m)) (trace m)).
  destruct (waits_run t op 0 timeout m1) as (m2 & R2 & W2 & U2 & C2 & O2 & A2 & Q2 & E2 & T2).
  { cbn [m1 blocked]. rewrite Nat.add_0_r. apply waiting_of_block. }
  { exact R. }
  split.
  - cbn [run step]. rewrite (put_enabled t op timeout m I). fold m1.
    change (S timeout) with (1 + timeout)%nat.
    rewrite Nat.add_comm, repeat_app, run_app, R2.
    cbn [repeat run step]. unfold wait. now rewrite W2.
  - cbn [run step]. rewrite (put_enabled t op timeout m I). fold m1.
    rewrite run_app, R2. cbn [run step]. unfold _execute_operation_empty.
    rewrite W2, E2. eexists. split; [reflexivity|].
    cbn [trace operation_queue result_queue conn worker_alive blocked].
    rewrite T2, Q2, C2, A2. repeat split.
    unfold idle. cbn [blocked]. apply waiting_of_unblock.
Qed.

(** What the code does after a time-out: the reply to the abandoned request
    is still put on the reply queue, the caller's next call takes it as its
    own result, and the reply to that call is left for the call after. *)
Lemma stale_reply_after_timeout (m : manager) (t : tid) (op op' : operation)
  (now now' : Z) :
  quiet m -> idle t m ->
  exists m' : manager,
    run (abandoned t op op' now now') m = Some m' /\
    trace m' = trace m ++
      [Finished t op None (Raised timed_out);
       Executed t op (snd (perform (conn m) now op));
       Executed t op' (snd (perform (fst (perform (conn m) now op)) now' op'));
       Finished t op' (Some t) (raise_or_return (snd (perform (conn m) now op)))] /\
    result_queue m' =
      [(t, snd (perform (fst (perform (conn m) now op)) now' op'))].
Proof.
  intros (A & Q & R) I.
  destruct (timeout_raises m t op default_timeout I R)
    as (_ & m1 & R1 & T1 & Q1 & E1 & C1 & A1 & I1).
  change (abandoned t op op' now now')
    with ((Call t op default_timeout :: repeat (Wait t) default_timeout ++
           [Give_up t]) ++ Work now :: call t op' now').
  rewrite run_app, R1. cbn [call run step].
  erewrite worker_performs; [|congruence|rewrite Q1, Q; reflexivity].
  rewrite put_enabled by exact I1.
  cbn [conn conn_open worker_alive operation_queue result_queue blocked trace app].
  erewrite worker_performs; [|reflexivity|reflexivity].
  cbn [conn conn_open worker_alive operation_queue result_queue blocked trace app].
  rewrite E1. cbn [app].
  erewrite get_enabled; [| cbn [blocked]; apply waiting_of_block | reflexivity].
  eexists. split; [reflexivity|].
  cbn [trace result_queue]. rewrite T1, C1, <- !app_assoc. split; reflexivity.
Qed.

(** ** Shutdown *)

Lemma step_other (a : action) (m m' : manager) (t : tid) :
  step a m = Some m' -> actor a <> Some t ->
  waiting_of t (blocked m') = waiting_of t (blocked m).
Proof.
  destruct a as [t' op n|now|t'|t'|t'|t'|t']; simpl; intros S N;
    try assert (N' : t <> t') by congruence.
  - unfold _execute_operation_put in S.
    destruct (waiting_of t' (blocked m)); [discriminate|].
    injection S as <-. simpl. now apply waiting_of_block_other.
  - unfold _worker in S. destruct (worker_alive m); [|discriminate]. simpl in S.
    destruct (operation_queue m) as [|[[u op]|] rest].
    + now injection S as <-.
    + destruct (perform (conn m) now op). now injection S as <-.
    + now injection S as <-.
  - unfold wait in S.
    destruct (waiting_of t' (blocked m)) as [[op [|n]|[|n]]|]; try discriminate.
    + destruct (result_queue m); [|discriminate].
      injection S as <-. simpl. now apply waiting_of_block_other.
    + destruct (worker_alive m); [|discriminate].
      injection S as <-. simpl. now apply waiting_of_block_other.
  - unfold _execute_operation_get in S.
    destruct (waiting_of t' (blocked m)) as [[op n|n]|]; try discriminate.
    destruct (result_queue m) as [|[u r] rest]; [discriminate|].
    injection S as <-. simpl. now apply waiting_of_unblock_other.
  - unfold _execute_operation_empty in S.
    destruct (waiting_of t' (blocked m)) as [[op [|n]|n]|]; try discriminate.
    destruct (result_queue m); [|discriminate].
    injection S as <-. simpl. now apply waiting_of_unblock_other.
  - unfold close in S. destruct (waiting_of t' (blocked m)); [discriminate|].
    injection S as <-. simpl. now apply waiting_of_block_other.
  - unfold close_return in S.
    destruct (waiting_of t' (blocked m)) as [[op n|n]|]; try discriminate.
    destruct (negb (worker_alive m) || Nat.eqb n 0); [|discriminate].
    injection S as <-. simpl. now apply waiting_of_unblock_other.
Qed.

(** Once the worker has left its loop nothing is executed any more: the
    file, the list of executed requests and the connection stay as they
    are, requests only pile up, and replies are only taken away. *)
Lemma stopped_step (a : action) (m m' : manager) :
  worker_alive m = false -> step a m = Some m' ->
  worker_alive m' = false /\ conn m' = conn m /\ conn_open m' = conn_open m /\
  executed (trace m') = executed (trace m) /\
  (exists taken, result_queue m = taken ++ result_queue m') /\
  queued (operation_queue m') = queued (operation_queue m) ++ submitted [a].
Proof.
  intros A.
  destruct a as [t op n|now|t|t|t|t|t]; simpl.
  - unfold _execute_operation_put.
    destruct (waiting_of t (blocked m)); [discriminate|]. intros [= <-]. simpl.
    repeat split; try assumption; [now exists []|apply queued_app].
  - unfold _worker. now rewrite A.
  - unfold wait. rewrite A.
    destruct (waiting_of t (blocked m)) as [[op [|n]|[|n]]|]; try discriminate.
    destruct (result_queue m) eqn:R; [|discriminate]. intros [= <-]. simpl.
    rewrite app_nil_r. repeat split; try assumption. now exists [].
  - unfold _execute_operation_get.
    destruct (waiting_of t (blocked m)) as [[op n|n]|]; try discriminate.
    destruct (result_queue m) as [|[u r] rest] eqn:R; [discriminate|].
    intros [= <-]. simpl. rewrite executed_app, !app_nil_r.
    repeat split; try assumption. now exists [(u, r)].
  - unfold _execute_operation_empty.
    destruct (waiting_of t (blocked m)) as [[op [|n]|n]|]; try discriminate.
    destruct (result_queue m) eqn:R; [|discriminate].
    intros [= <-]. simpl. rewrite executed_app, !app_nil_r.
    repeat split; try assumption. now exists [].
  - unfold close. destruct (waiting_of t (blocked m)); [discriminate|].
    intros [= <-]. simpl. rewrite queued_app. simpl.
    repeat split; try assumption. now exists [].
  - unfold close_return.
    destruct (waiting_of t (blocked m)) as [[op n|n]|]; try discriminate.
    destruct (negb (worker_alive m) || Nat.eqb n 0); [|discriminate].
    intros [= <-]. simpl. rewrite executed_app, !app_nil_r.
    repeat split; try assumption. now exists [].
Qed.

Lemma stopped_run (acts : list action) (m m' : manager) :
  worker_alive m = false -> run acts m = Some m' ->
  worker_alive m' = false /\ conn m' = conn m /\ conn_open m' = conn_open m /\
  executed (trace m') = executed (trace m) /\
  (exists taken, result_queue m = taken ++ result_queue m') /\
  queued (operation_queue m') = queued (operation_queue m) ++ submitted acts.
Proof.
  revert m. induction acts as [|a acts IH]; intros m A; simpl.
  - intros [= <-]. rewrite app_nil_r.
    repeat (split; [first [assumption|reflexivity]|]).
    split; [now exists []|reflexivity].
  - destruct (step a m) as [m1|] eqn:S; [|discriminate]. intros R.
    destruct (stopped_step a m m1 A S) as (A1 & C1 & O1 & E1 & [k1 K1] & Q1).
    destruct (IH m1 A1 R) as (A2 & C2 & O2 & E2 & [k2 K2] & Q2).
    repeat (split; [congruence|]). split.
    + exists (k1 ++ k2). now rewrite K1, K2, app_assoc.
    + rewrite Q2, Q1, <- app_assoc. f_equal. now destruct a.
Qed.

(** A caller inside [close] lets at most the time units of its [join]
    time-out pass before [close] returns. *)
Lemma join_bounded (t : tid) (acts : list action) (n : nat) (m m' : manager) :
  waiting_of t (blocked m) = Some (In_join n) ->
  existsb (returns_from_close t) acts = false ->
  run acts m = Some m' ->
  (waits t acts <= n)%nat.
Proof.
  revert n m. induction acts as [|a acts IH]; intros n m W X; simpl.
  - intros _. lia.
  - simpl in X. apply orb_false_elim in X. destruct X as [Xa Xs].
    destruct (step a m) as [m1|] eqn:S; [|discriminate]. intros R.
    destruct a as [t' op k|now|t'|t'|t'|t'|t'];
      try (destruct (Nat.eqb_spec t t') as [<-|N]).
    all: try (apply (IH n m1); try assumption;
              rewrite (step_other _ _ _ t S); [assumption|simpl; congruence]).
    + simpl in S. unfold _execute_operation_put in S. now rewrite W in S.
    + simpl in S. unfold wait in S. rewrite W in S.
      destruct n as [|n]; [discriminate|].
      destruct (worker_alive m); [|discriminate]. injection S as <-.
      apply le_n_S.
      eapply (IH n); [|exact Xs|exact R].
      cbn [blocked]. apply waiting_of_block.
    + simpl in S. unfold _execute_operation_get in S. now rewrite W in S.
    + simpl in S. unfold _execute_operation_empty in S. now rewrite W in S.
    + simpl in S. unfold close in S. now rewrite W in S.
    + simpl in Xa. now rewrite Nat.eqb_refl in Xa.
Qed.

(** C9: the shutdown signal is [None], which no operation tuple equals.  When
    the worker takes it from the queue it leaves its loop without answering,
    closes the connection and is no longer alive; from then on no request is
    executed, the file does not change and no reply is produced.  [close]
    puts the signal and waits in [join] for at most two time units: it can
    return after two units with the worker still running and the signal
    still queued.  A request put behind the signal is never executed and
    never answered. *)
Theorem shutdown_sentinel_stops_the_worker :
  (forall x : tid * operation, (None : option (tid * operation)) <> Some x) /\
  (forall (m : manager) (now : Z) (rest : list (option (tid * operation))),
      worker_alive m = true -> operation_queue m = None :: rest ->
      exists m' : manager,
        _worker now m = Some m' /\
        worker_alive m' = false /\ conn_open m' = false /\
        operation_queue m' = rest /\ result_queue m' = result_queue m /\
        conn m' = conn m /\ _worker now m' = None) /\
  (forall (m : manager) (acts : list action) (m' : manager),
      worker_alive m = false -> run acts m = Some m' ->
      worker_alive m' = false /\ conn m' = conn m /\
      executed (trace m') = executed (trace m) /\
      (exists taken, result_queue m = taken ++ result_queue m') /\
      queued (operation_queue m') = queued (operation_queue m) ++ submitted acts) /\
  (forall (m : manager) (t : tid) (acts : list action) (m' : manager),
      run (Close t :: acts) m = Some m' ->
      existsb (returns_from_close t) acts = false ->
      (waits t acts <= join_timeout)%nat) /\
  (forall (m : manager) (t : tid),
      idle t m -> worker_alive m = true ->
      exists m' : manager,
        run [Close t; Wait t; Wait t; Close_return t] m = Some m' /\
        worker_alive m' = true /\ idle t m' /\
        operation_queue m' = operation_queue m ++ [None]) /\
  (forall (m : manager) (t t' : tid) (op : operation) (now : Z),
      quiet m -> idle t m -> idle t' m -> t <> t' ->
      exists m1 : manager,
        run [Close t; Call t' op default_timeout; Work now] m = Some m1 /\
        worker_alive m1 = false /\
        operation_queue m1 = [Some (t', op)] /\
        forall (acts : list action) (m2 : manager),
          run acts m1 = Some m2 ->
          executed (trace m2) = executed (trace m) /\
          result_queue m2 = [] /\
          In (t', op) (queued (operation_queue m2))).
Proof.
  split; [discriminate|]. split; [|split; [|split; [|split]]].
  - intros m now rest A Q. unfold _worker at 1. rewrite A, Q. simpl.
    eexists. split; [reflexivity|]. repeat split.
  - intros m acts m' A R.
    destruct (stopped_run acts m m' A R) as (H1 & H2 & _ & H3 & H4 & H5). auto.
  - intros m t acts m' R X. cbn [run step] in R. unfold close in R.
    destruct (waiting_of t (blocked m)) eqn:W; [discriminate|].
    eapply join_bounded; [|exact X|exact R].
    cbn [blocked]. apply waiting_of_block.
  - intros m t I A. unfold idle in I. cbn [run step]. unfold close. rewrite I.
    unfold wait. cbn [blocked worker_alive result_queue conn conn_open
                      operation_queue trace].
    rewrite waiting_of_block, A. unfold join_timeout.
    cbn [blocked worker_alive result_queue conn conn_open operation_queue trace].
    rewrite waiting_of_block.
    cbn [blocked worker_alive result_queue conn conn_open operation_queue trace].
    unfold close_return. cbn [blocked worker_alive]. rewrite waiting_of_block.
    cbn [negb orb Nat.eqb conn conn_open worker_alive operation_queue
         result_queue blocked trace].
    eexists. split; [reflexivity|].
    cbn [worker_alive operation_queue blocked]. repeat split.
    unfold idle. apply waiting_of_unblock.
  - intros m t t' op now (A & Q & R) I I' N. unfold idle in I, I'.
    cbn [run step]. unfold close. rewrite I.
    rewrite put_enabled;
      [|unfold idle; cbn [blocked]; rewrite waiting_of_block_other;
        [exact I'|congruence]].
    unfold _worker.
    cbn [blocked worker_alive result_queue conn conn_open operation_queue trace].
    rewrite A, Q. cbn [negb app]. eexists. split; [reflexivity|].
    split; [reflexivity|]. split; [reflexivity|].
    intros acts m2 R2. apply stopped_run in R2; [|reflexivity].
    destruct R2 as (_ & _ & _ & E2 & [k K] & Q2).
    cbn [trace result_queue operation_queue] in *.
    rewrite R in K. symmetry in K. apply app_eq_nil in K.
    rewrite executed_app, app_nil_r in E2.
    repeat split; [exact E2|apply K|]. rewrite Q2. simpl. now left.
Qed.

(** ** The theorems at work on sample data *)

Lemma started_quiet (d : database) : quiet (started d).
Proof. repeat split. Defined.

Lemma worker_replies_new_row_id_witness :
  exists m : manager,
    run [Call 1 (insert (Insert all_fields) label_job) default_timeout;
         Call 2 (insert (Insert all_fields) receipt_job) default_timeout;
         Work 7] (started fresh_table) = Some m /\
    exists d : database,
      serves m 8 2 d (Success (P_int 2)) /\ rows_of d = [label_row; receipt_row].
Proof.
  eexists. split; [vm_compute; reflexivity|].
  match goal with
  | |- exists d, serves ?m _ _ d _ /\ _ =>
      destruct (worker_replies_new_row_id m 8 2%nat all_fields receipt_job
                  _ _ eq_refl eq_refl eq_refl) as (A & _ & B & _)
  end.
  eexists. split; [exact A|exact B].
Defined.

(** C1, on the code: threads 1 and 2 each save a job at the same time.  The
    worker stores the label as row 1 and the receipt as row 2 and answers
    each insert with its row id, but thread 2 is the first to look at the
    reply queue: its [insert] returns 1, the id of the label, and the
    [insert] of thread 1 returns 2, the id of the receipt. *)
Example insert_returns_another_rows_id :
  exists m' : manager,
    run (crossing 1 2 (insert (Insert all_fields) label_job)
                  (insert (Insert all_fields) receipt_job) 7 8)
        (started fresh_table) = Some m' /\
    trace m' =
      [Executed 1 (insert (Insert all_fields) label_job) (Success (P_int 1));
       Finished 2 (insert (Insert all_fields) receipt_job) (Some 1%nat)
                (Returns (P_int 1));
       Executed 2 (insert (Insert all_fields) receipt_job)
                (Success (P_int 2));
       Finished 1 (insert (Insert all_fields) label_job) (Some 2%nat)
                (Returns (P_int 2))] /\
    rows_of (conn m') = [label_row; receipt_row].
Proof.
  eexists. split; [vm_compute; reflexivity|]. split; reflexivity.
Qed.

Lemma worker_reports_errors_and_goes_on_witness :
  exists m' : manager,
    _worker 3 (Manager (connect fresh_table) true true
                 [Some (1%nat, select (Not_sql "SELEC") None);
                  Some (2%nat, insert (Insert all_fields) label_job)]
                 [] [] []) = Some m' /\
    result_queue m' = [(1%nat, Error (syntax_error "SELEC"))] /\
    serves m' 7 2 label_saved (Success (P_int 1)).
Proof.
  destruct (worker_reports_errors_and_goes_on
              (Manager (connect fresh_table) true true
                 [Some (1%nat, select (Not_sql "SELEC") None);
                  Some (2%nat, insert (Insert all_fields) label_job)]
                 [] [] [])
              3 1%nat K_select (Some (Not_sql "SELEC")) [] (syntax_error "SELEC")
              [Some (2%nat, insert (Insert all_fields) label_job)]
              eq_refl eq_refl)
    as (m' & W & Q & _ & _ & _ & _ & _ & N); [discriminate|reflexivity|].
  exists m'. split; [exact W|]. split; [exact Q|].
  apply (N 2%nat (insert (Insert all_fields) label_job) 7 label_saved
           (Success (P_int 1)) [] eq_refl eq_refl).
Defined.

(** C2, on the code.  First run: thread 1 sends a query that does not parse
    while thread 2 saves a job; the worker reports the syntax error and then
    stores the job, but thread 2 is the first to look at the reply queue:
    the well-formed insert of thread 2 raises the database error for the
    syntax error near SELEC and the failed select of thread 1 returns 1, the
    row id of the job.  Second run:
    the call of thread 1 has timed out before the worker gets to its query;
    thread 2 saves a job afterwards, and its insert raises the database
    error of the query of thread 1, although the worker stores the job. *)
Example error_is_raised_in_another_call :
  (exists m' : manager,
      run (crossing 1 2 (select (Not_sql "SELEC") None)
                    (insert (Insert all_fields) label_job) 6 7)
          (started fresh_table) = Some m' /\
      trace m' =
        [Executed 1 (select (Not_sql "SELEC") None)
                  (Error (syntax_error "SELEC"));
         Finished 2 (insert (Insert all_fields) label_job) (Some 1%nat)
                  (Raised (database_error (syntax_error "SELEC")));
         Executed 2 (insert (Insert all_fields) label_job)
                  (Success (P_int 1));
         Finished 1 (select (Not_sql "SELEC") None) (Some 2%nat)
                  (Returns (P_int 1))] /\
      rows_of (conn m') = [label_row]) /\
  (exists m' : manager,
      run (late_error 1 2 (select (Not_sql "SELEC") None)
                      (insert (Insert all_fields) label_job) 6 7)
          (started fresh_table) = Some m' /\
      trace m' =
        [Finished 1 (select (Not_sql "SELEC") None) None (Raised timed_out);
         Executed 1 (select (Not_sql "SELEC") None)
                  (Error (syntax_error "SELEC"));
         Executed 2 (insert (Insert all_fields) label_job)
                  (Success (P_int 1));
         Finished 2 (insert (Insert all_fields) label_job) (Some 1%nat)
                  (Raised (database_error (syntax_error "SELEC")))] /\
      result_queue m' = [(2%nat, Success (P_int 1))] /\
      rows_of (conn m') = [label_row]).
Proof.
  split; eexists; (split; [vm_compute; reflexivity|]); repeat split.
Qed.

Lemma concurrent_inserts_are_serialized_witness :
  exists m : manager,
    run (call 0 init_db 0 ++ two_inserters) (started empty_file) = Some m /\
    ids (conn m) = ids empty_file ++ new_ids (trace m) /\
    new_ids (trace m) = [1; 2].
Proof.
  eexists. split; [vm_compute; reflexivity|]. split; [|reflexivity].
  refine (proj1 (concurrent_inserts_are_serialized empty_file 0 two_inserters
                   _ _ eq_refl _)).
  - constructor.
  - vm_compute. reflexivity.
Defined.

Lemma operations_run_in_fifo_order_witness :
  (exists m : manager,
      run two_inserters (started fresh_table) = Some m /\
      submitted two_inserters
        = executed (trace m) ++ queued (operation_queue m)) /\
  (exists (m' : manager) (d' : database) (n : Z),
      run label_then_update (started fresh_table) = Some m' /\
      In (Finished 1 (insert (Insert all_fields) label_job) (Some 2%nat)
                   (Returns (P_int 2))) (trace m') /\
      serves m' 10 1 d' (Success (P_int n)) /\ 1 <= n /\
      In (set_status (V_text "completed") label_row) (rows_of d')).
Proof.
  destruct operations_run_in_fifo_order as [F S]. split.
  - eexists. split; [vm_compute; reflexivity|].
    refine (proj1 (F fresh_table two_inserters _ _)). vm_compute. reflexivity.
  - eexists.
    assert (R : run label_then_update (started fresh_table) = Some _)
      by (vm_compute; reflexivity).
    destruct (S (started fresh_table) _ 1%nat all_fields label_job Url_is
                (V_text "completed") [V_text "https://example.com/a.pdf"]
                default_timeout default_timeout
                [Call 2 (insert (Insert all_fields) receipt_job)
                      default_timeout;
                 Work 7; Work 8; Collect 2; Collect 1;
                 Call 2 (select (Select_count Everything) None)
                      default_timeout]
                [Work 9] 10 (fun absurd => absurd) eq_refl eq_refl R eq_refl
                eq_refl)
      as (e1 & r0 & e2 & T & K).
    cbn [trace started app] in T.
    destruct e1 as [|x e1]; [|destruct e1 as [|y e1]; [discriminate|];
      destruct e1 as [|z e1]; [discriminate|];
      destruct e1 as [|u e1]; [discriminate|];
      destruct e1 as [|v e1]; [discriminate|];
      destruct e1; discriminate].
    injection T as <- <-.
    destruct (K 1 eq_refl eq_refl) as (r & I & H & U).
    destruct (U eq_refl) as (d' & n & V & N & J).
    { destruct I as [<-|[<-|[]]]; [reflexivity|].
      destruct H as [H _]. discriminate. }
    exists d', n. split; [exact R|].
    split; [right; right; right; now left|]. split; [exact V|].
    split; [exact N|].
    destruct I as [<-|[<-|[]]]; [exact J|].
    destruct H as [H _]. discriminate.
Defined.

Lemma replies_can_cross_witness :
  exists m' : manager,
    run (crossing 1 2 (insert (Insert all_fields) label_job)
                  (select_one by_id (Some [V_int 1])) 7 8)
        (started fresh_table) = Some m' /\
    In (Finished 1 (insert (Insert all_fields) label_job) (Some 2%nat)
          (Returns (P_row [V_text "https://example.com/a.pdf"; V_text "label";
                           V_text "label:https://example.com/a.pdf"])))
       (trace m') /\
    In (Finished 2 (select_one by_id (Some [V_int 1])) (Some 1%nat)
          (Returns (P_int 1)))
       (trace m').
Proof.
  destruct (replies_can_cross (started fresh_table) 1%nat 2%nat
              (insert (Insert all_fields) label_job)
              (select_one by_id (Some [V_int 1])) 7 8
              (started_quiet _) eq_refl eq_refl)
    as (m' & R & _ & T); [discriminate|].
  exists m'. split; [exact R|]. rewrite T.
  split; [right; right; right; left|right; left]; reflexivity.
Defined.

(** C6, on the code: thread 1 saves a job, sees no reply for the five time
    units of the default time-out and gets the time-out exception; the worker
    then performs the insert; thread 1 next asks for row 1 with [select_one]
    and is handed the integer 1, the insert's row id, while the row it asked
    for is left on the reply queue for whoever calls next. *)
Example abandoned_reply_answers_next_call :
  exists m' : manager,
    run (abandoned 1 (insert (Insert all_fields) label_job)
                   (select_one by_id (Some [V_int 1])) 7 8)
        (started fresh_table) = Some m' /\
    trace m' =
      [Finished 1 (insert (Insert all_fields) label_job) None
                (Raised timed_out);
       Executed 1 (insert (Insert all_fields) label_job) (Success (P_int 1));
       Executed 1 (select_one by_id (Some [V_int 1]))
                (Success (P_row [V_text "https://example.com/a.pdf";
                                 V_text "label";
                                 V_text "label:https://example.com/a.pdf"]));
       Finished 1 (select_one by_id (Some [V_int 1])) (Some 1%nat)
                (Returns (P_int 1))] /\
    result_queue m' =
      [(1%nat, Success (P_row [V_text "https://example.com/a.pdf";
                               V_text "label";
                               V_text "label:https://example.com/a.pdf"]))] /\
    conn m' = label_saved.
Proof.
  eexists. split; [vm_compute; reflexivity|]. repeat split.
Qed.

Lemma worker_replies_affected_rows_witness :
  (exists (d : database) (c : cursor),
      execute (connect one_job) 9 (Some (Delete Id_is)) [V_int 1] = Done d c /\
      rowcount c = 1 /\ row_count d = 0%nat) /\
  (exists c : cursor,
      execute (connect one_job) 9 (Some (Delete Id_is)) [V_int 7]
        = Done (connect one_job) c /\
      rowcount c = 0).
Proof.
  destruct (worker_replies_affected_rows (started one_job) 9 1%nat eq_refl)
    as (_ & _ & _ & D).
  assert (W : well_formed (connect one_job))
    by (repeat constructor; simpl; tauto).
  assert (T : table (connect one_job) <> None) by discriminate.
  split.
  - destruct (D 1 W T) as (d & c & E & P & _).
    destruct P as (C & _ & R); [now left|].
    exists d, c. split; [exact E|]. split; [exact C|].
    injection R as R. now symmetry.
  - destruct (D 7 W T) as (d & c & E & _ & A).
    destruct A as [C ->]; [simpl; intros [H|[]]; discriminate|].
    exists c. split; [exact E|exact C].
Defined.

(** C7, on the code: the table holds row 1.  Thread 1 deletes row 1 while
    thread 2 deletes row 7, which does not exist.  The worker removes row 1
    and answers 1, then answers 0 for row 7, but thread 2 is the first to
    look at the reply queue: the delete of the unknown row returns 1 and the
    delete of the existing row returns 0. *)
Example delete_returns_another_calls_count :
  exists m' : manager,
    run (crossing 1 2 (delete (Delete Id_is) [V_int 1])
                  (delete (Delete Id_is) [V_int 7]) 8 9)
        (started one_job) = Some m' /\
    trace m' =
      [Executed 1 (delete (Delete Id_is) [V_int 1]) (Success (P_int 1));
       Finished 2 (delete (Delete Id_is) [V_int 7]) (Some 1%nat)
                (Returns (P_int 1));
       Executed 2 (delete (Delete Id_is) [V_int 7]) (Success (P_int 0));
       Finished 1 (delete (Delete Id_is) [V_int 1]) (Some 2%nat)
                (Returns (P_int 0))] /\
    rows_of (conn m') = [].
Proof.
  eexists. split; [vm_compute; reflexivity|]. split; reflexivity.
Qed.

Lemma init_db_is_idempotent_witness :
  exists m' : manager,
    run (flat_map (call 1 init_db) [1; 2; 3]) (started empty_file) = Some m' /\
    conn m' = fresh_table /\
    flat_map (call 1 init_db) [1; 2; 3]
      = call 1 init_db 1 ++ call 1 init_db 2 ++ call 1 init_db 3.
Proof.
  destruct (init_db_is_idempotent empty_file 1) as (d1 & P & _ & _ & _ & _ & _ & _ & G).
  injection P as <-.
  destruct (G (started empty_file) 1%nat [2; 3] eq_refl (started_quiet _) eq_refl)
    as (m' & R & C & _).
  exists m'. split; [exact R|]. split; [exact C|reflexivity].
Defined.

Lemma shutdown_sentinel_stops_the_worker_witness :
  (waits 1 [Wait 1; Wait 1] <= join_timeout)%nat /\
  exists m1 : manager,
    run [Close 1; Call 2 (insert (Insert all_fields) label_job) default_timeout;
         Work 3] (started fresh_table) = Some m1 /\
    worker_alive m1 = false /\
    operation_queue m1 = [Some (2%nat, insert (Insert all_fields) label_job)].
Proof.
  destruct shutdown_sentinel_stops_the_worker as (_ & _ & _ & B & _ & L).
  split.
  - eapply (B (started fresh_table) 1%nat [Wait 1; Wait 1]);
      [vm_compute; reflexivity|reflexivity].
  - destruct (L (started fresh_table) 1%nat 2%nat
                (insert (Insert all_fields) label_job) 3
                (started_quiet _) eq_refl eq_refl)
      as (m1 & R & A & Q & _); [discriminate|].
    exists m1. split; [exact R|]. split; [exact A|exact Q].
Defined.


(** ** Calls in sequence *)

Lemma script_runs (s : script) (m : manager) :
  quiet m ->
  (forall c, In c s -> idle (fst (fst c)) m) ->
  exists m' : manager,
    run (calls s) m = Some m' /\
    conn m' = replay (conn m) s /\
    trace m' = trace m ++ transcript (conn m) s /\
    quiet m' /\
    (forall t, idle t m -> idle t m').
Proof.
  revert m. induction s as [|[[t op] now] s IH]; intros m Q I.
  - exists m. cbn. rewrite app_nil_r. auto.
  - assert (It : idle t m) by (apply (I (t, op, now)); now left).
    pose proof (call_runs t op now m Q It) as R1.
    destruct (IH (after_call t op now m)) as (m' & R & C & T & Q' & I').
    + apply after_call_quiet.
    + intros c Hc. apply after_call_idle. apply I. now right.
    + exists m'. unfold calls in *. cbn [flat_map fst snd].
      rewrite run_app, R1, R. split; [reflexivity|].
      split; [exact C|]. split; [|split; [exact Q'|]].
      * rewrite T. unfold after_call. cbn [trace conn transcript].
        now rewrite <- app_assoc.
      * intros t' H. apply I'. now apply after_call_idle.
Qed.

(** A sequence of calls, by whichever threads, each issued when the one
    before has returned: every call is handed the reply to its own request,
    the file ends up as if the operations had been performed in turn, and
    nothing is left in flight. *)
Theorem calls_in_sequence_are_answered_in_turn (s : script) (m : manager) :
  quiet m ->
  (forall c, In c s -> idle (fst (fst c)) m) ->
  exists m' : manager,
    run (calls s) m = Some m' /\
    conn m' = replay (conn m) s /\
    trace m' = trace m ++ transcript (conn m) s /\
    quiet m'.
Proof.
  intros Q I. destruct (script_runs s m Q I) as (m' & R & C & T & Q' & _).
  exists m'. auto.
Qed.

Lemma calls_in_sequence_are_answered_in_turn_witness :
  exists m' : manager,
    run (calls [(1%nat, insert (Insert all_fields) label_job, 7);
                (2%nat, select_one by_id (Some [V_int 1]), 8);
                (1%nat, delete (Delete Id_is) [V_int 1], 9)])
        (started fresh_table) = Some m' /\
    conn m' = Database (Some []) 1 1 /\ quiet m'.
Proof.
  destruct (calls_in_sequence_are_answered_in_turn
              [(1%nat, insert (Insert all_fields) label_job, 7);
               (2%nat, select_one by_id (Some [V_int 1]), 8);
               (1%nat, delete (Delete Id_is) [V_int 1], 9)]
              (started fresh_table) (started_quiet _))
    as (m' & R & C & _ & Q).
  - intros c _. reflexivity.
  - exists m'. split; [exact R|]. split; [exact C|exact Q].
Defined.

(** ** Replies come back in request order *)

Lemma performed_app (a b : list event) :
  performed (a ++ b) = performed a ++ performed b.
Proof.
  induction a as [|e a IH]; simpl; [reflexivity|].
  destruct e; simpl; now rewrite IH.
Qed.

Lemma taken_app (a b : list event) : taken (a ++ b) = taken a ++ taken b.
Proof.
  induction a as [|e a IH]; simpl; [reflexivity|].
  destruct e as [| ? ? [?|] ?| |]; simpl; now rewrite IH.
Qed.

Lemma executed_performed (tr : list event) :
  executed tr = map fst (performed tr).
Proof.
  induction tr as [|e tr IH]; simpl; [reflexivity|].
  destruct e; simpl; now rewrite IH.
Qed.

Lemma step_keeps_replies (a : action) (m m' : manager) :
  step a m = Some m' ->
  map as_produced (performed (trace m)) =
    taken (trace m) ++ map as_taken (result_queue m) ->
  map as_produced (performed (trace m')) =
    taken (trace m') ++ map as_taken (result_queue m').
Proof.
  destruct a as [t op n|now|t|t|t|t|t]; simpl.
  - unfold _execute_operation_put.
    destruct (waiting_of t (blocked m)); [discriminate|]. now intros [= <-].
  - unfold _worker. destruct (worker_alive m); [|discriminate]. simpl.
    destruct (operation_queue m) as [|[[t op]|] rest].
    + now intros [= <-].
    + destruct (perform (conn m) now op) as [d r]. intros [= <-] H. simpl.
      rewrite performed_app, taken_app, !map_app, H. simpl.
      now rewrite app_nil_r, app_assoc.
    + intros [= <-] H. simpl. rewrite performed_app, taken_app. simpl.
      now rewrite !app_nil_r.
  - unfold wait.
    destruct (waiting_of t (blocked m)) as [[op [|n]|[|n]]|]; try discriminate.
    + destruct (result_queue m); [|discriminate]. now intros [= <-].
    + destruct (worker_alive m); [|discriminate]. now intros [= <-].
  - unfold _execute_operation_get.
    destruct (waiting_of t (blocked m)) as [[op n|n]|]; try discriminate.
    destruct (result_queue m) as [|[t' r] rest]; [discriminate|].
    intros [= <-] H. simpl in *. rewrite performed_app, taken_app. simpl.
    now rewrite app_nil_r, H, <- app_assoc.
  - unfold _execute_operation_empty.
    destruct (waiting_of t (blocked m)) as [[op [|n]|n]|]; try discriminate.
    destruct (result_queue m); [|discriminate].
    intros [= <-] H. simpl in *. rewrite performed_app, taken_app. simpl.
    rewrite ?app_nil_r in *. exact H.
  - unfold close. destruct (waiting_of t (blocked m)); [discriminate|].
    now intros [= <-].
  - unfold close_return.
    destruct (waiting_of t (blocked m)) as [[op n|n]|]; try discriminate.
    destruct (negb (worker_alive m) || Nat.eqb n 0); [|discriminate].
    intros [= <-] H. simpl. rewrite performed_app, taken_app. simpl.
    now rewrite !app_nil_r.
Qed.

Lemma run_keeps_replies (acts : list action) (m m' : manager) :
  run acts m = Some m' ->
  map as_produced (performed (trace m)) =
    taken (trace m) ++ map as_taken (result_queue m) ->
  map as_produced (performed (trace m')) =
    taken (trace m') ++ map as_taken (result_queue m').
Proof.
  revert m. induction acts as [|a acts IH]; intros m; simpl.
  - now intros [= <-].
  - destruct (step a m) as [m1|] eqn:S; [|discriminate]. intros R H.
    apply (IH m1 R). now apply (step_keeps_replies a m).
Qed.

(** In every interleaving the worker answers each request it performs once,
    and the replies are taken in the order in which they were produced: the
    k-th reply any caller takes off the reply queue is the reply to the k-th
    request that was put on the operation queue, whoever takes it. *)
Theorem replies_are_taken_in_request_order (d : database)
  (acts : list action) (m : manager) :
  run acts (started d) = Some m ->
  map as_produced (performed (trace m)) =
    taken (trace m) ++ map as_taken (result_queue m) /\
  forall (k : nat) (t : tid) (e : ending),
    nth_error (taken (trace m)) k = Some (t, e) ->
    exists (op : operation) (r : result),
      nth_error (performed (trace m)) k = Some (t, op, r) /\
      e = raise_or_return r /\
      nth_error (submitted acts) k = Some (t, op).
Proof.
  intros R. pose proof (run_keeps_replies acts _ _ R eq_refl) as H.
  split; [exact H|]. intros k t e K.
  assert (P : nth_error (map as_produced (performed (trace m))) k = Some (t, e)).
  { rewrite H, nth_error_app1; [exact K|]. apply nth_error_Some. congruence. }
  rewrite nth_error_map in P.
  destruct (nth_error (performed (trace m)) k) as [[[t' op] r]|] eqn:E;
    [|discriminate].
  injection P as -> <-. exists op, r. split; [reflexivity|]. split; [reflexivity|].
  apply run_keeps_order in R. simpl in R. rewrite <- R.
  rewrite nth_error_app1.
  - rewrite executed_performed, nth_error_map, E. reflexivity.
  - rewrite executed_performed, length_map. apply nth_error_Some. congruence.
Qed.

Lemma replies_are_taken_in_request_order_witness :
  exists m : manager,
    run two_inserters (started fresh_table) = Some m /\
    taken (trace m) = [(1%nat, Returns (P_int 1)); (2%nat, Returns (P_int 2))] /\
    map as_produced (performed (trace m)) =
      taken (trace m) ++ map as_taken (result_queue m).
Proof.
  eexists. split; [vm_compute; reflexivity|]. split; [reflexivity|].
  refine (proj1 (replies_are_taken_in_request_order fresh_table two_inserters
                   _ _)).
  vm_compute. reflexivity.
Defined.

(** ** Row ids are handed out once *)

Lemma assigned_ids_app (a b : list event) :
  assigned_ids (a ++ b) = assigned_ids a ++ assigned_ids b.
Proof.
  induction a as [|e a IH]; simpl; [reflexivity|].
  destruct e as [t [[[] [[]|]] ps] [[]|]| | |]; simpl; now rewrite IH.
Qed.

Lemma execute_numbers (d d' : database) (now : Z) (q : option statement)
  (params : list value) (c : cursor) :
  execute d now q params = Done d' c ->
  sequence d <= sequence d' /\
  (coherent d -> coherent d') /\
  (forall cols, q = Some (Insert cols) ->
                sequence d < next_id d /\ sequence d' = next_id d).
Proof.
  intros E. apply execute_done in E.
  destruct E as (stmt & rs & -> & T & _ & E).
  assert (N : sequence d < next_id d) by (unfold next_id; lia).
  unfold coherent, ids, rows_of. rewrite T.
  destruct stmt as [cols|w|w|cols w|w|cols limit|token].
  - destruct E as (_ & -> & _). simpl. split; [lia|]. split; [|auto].
    intros _. rewrite map_app. apply Forall_app.
    split; [|repeat constructor; simpl; lia].
    apply Forall_forall. intros i Hi. apply in_map_iff in Hi.
    destruct Hi as (r & <- & Hr). apply max_id_bounds in Hr.
    unfold next_id, rows_of. rewrite T. lia.
  - destruct E as (-> & _). simpl. split; [lia|]. split; [|discriminate].
    now rewrite ids_set_status.
  - destruct E as (-> & _). simpl. split; [lia|]. split; [|discriminate].
    intros H. apply Forall_forall. intros i Hi. apply in_map_iff in Hi.
    destruct Hi as (r & <- & Hr). apply filter_In in Hr.
    rewrite Forall_forall in H. apply H. apply in_map. tauto.
  - destruct E as (-> & _). rewrite T. split; [lia|]. split; [auto|discriminate].
  - destruct E as (-> & _). rewrite T. split; [lia|]. split; [auto|discriminate].
  - destruct E as (-> & _). rewrite T. split; [lia|]. split; [auto|discriminate].
  - contradiction.
Qed.

Lemma perform_numbers (d d' : database) (now : Z) (op : operation)
  (r : result) :
  perform d now op = (d', r) ->
  sequence d <= sequence d' /\
  (coherent d -> coherent d') /\
  (forall cols ps i,
      op = (K_insert, Some (Insert cols), ps) -> r = Success (P_int i) ->
      sequence d < i /\ sequence d' = i).
Proof.
  destruct op as [[k q] ps]. unfold perform, attempt.
  destruct k.
  - destruct (create_table_done d) as (d1 & c & E & R & _ & S & _).
    rewrite E. intros [= <- <-]. split; [lia|]. split; [|discriminate].
    unfold coherent, ids. now rewrite R, S.
  - destruct (execute d now q ps) as [d1 c|msg] eqn:E.
    + destruct (execute_numbers _ _ _ _ _ _ E) as (A & B & C).
      intros [= <- <-]. split; [exact A|]. split; [exact B|].
      intros cols ps' i [= -> <-] H.
      destruct (execute_insert_done _ _ _ _ _ _ E) as (_ & L & _).
      rewrite L in H. injection H as <-. now apply (C cols).
    + intros [= <- <-]. split; [lia|]. split; [auto|discriminate].
  - destruct (execute d now q ps) as [d1 c|msg] eqn:E.
    + destruct (execute_numbers _ _ _ _ _ _ E) as (A & B & _).
      intros [= <- <-]. split; [exact A|]. split; [exact B|discriminate].
    + intros [= <- <-]. split; [lia|]. split; [auto|discriminate].
  - destruct (execute d now q ps) as [d1 c|msg] eqn:E.
    + destruct (execute_numbers _ _ _ _ _ _ E) as (A & B & _).
      intros [= <- <-]. split; [exact A|]. split; [exact B|discriminate].
    + intros [= <- <-]. split; [lia|]. split; [auto|discriminate].
  - destruct (execute d now q ps) as [d1 c|msg] eqn:E.
    + destruct (execute_numbers _ _ _ _ _ _ E) as (A & B & _).
      intros [= <- <-]. split; [exact A|]. split; [exact B|discriminate].
    + intros [= <- <-]. split; [lia|]. split; [auto|discriminate].
  - destruct (execute d now q ps) as [d1 c|msg] eqn:E.
    + destruct (execute_numbers _ _ _ _ _ _ E) as (A & B & _).
      intros [= <- <-]. split; [exact A|]. split; [exact B|discriminate].
    + intros [= <- <-]. split; [lia|]. split; [auto|discriminate].
Qed.

Lemma ascending_snoc (l : list Z) (i : Z) :
  StronglySorted Z.lt l -> Forall (fun j => j < i) l ->
  StronglySorted Z.lt (l ++ [i]).
Proof.
  induction 1 as [|j l S IH F]; intros B; simpl.
  - repeat constructor.
  - inversion B as [|? ? Bj Bl]; subst. constructor; [now apply IH|].
    apply Forall_app. split; [exact F|]. now repeat constructor.
Qed.

(** What every interleaving keeps true of the ids, relative to the file [d]
    the manager was started on. *)
Lemma numbering_step (d : database) (a : action) (m m' : manager) :
  step a m = Some m' ->
  coherent (conn m) /\ sequence d <= sequence (conn m) /\
  StronglySorted Z.lt (assigned_ids (trace m)) /\
  Forall (fun i => sequence d < i <= sequence (conn m))
         (assigned_ids (trace m)) ->
  coherent (conn m') /\ sequence d <= sequence (conn m') /\
  StronglySorted Z.lt (assigned_ids (trace m')) /\
  Forall (fun i => sequence d < i <= sequence (conn m'))
         (assigned_ids (trace m')).
Proof.
  intros S (H1 & H2 & H3 & H4). apply step_shape in S.
  destruct S as [[Tr C]|[(e & Tr & C & X & D)|(t & op & now & r & Tr & P)]].
  - rewrite Tr, C. auto.
  - rewrite Tr, C, assigned_ids_app.
    assert (E : assigned_ids [e] = []) by (now destruct e).
    rewrite E, app_nil_r. auto.
  - destruct (perform_numbers _ _ _ _ _ P) as (A & B & C).
    assert (W : Forall (fun i => sequence d < i <= sequence (conn m'))
                       (assigned_ids (trace m))).
    { eapply Forall_impl; [|exact H4]. simpl. intros; lia. }
    rewrite Tr, assigned_ids_app. split; [auto|]. split; [lia|].
    destruct op as [[k q] ps].
    destruct k; try (simpl; rewrite app_nil_r; now split).
    destruct q as [[cols|w|w|cols w|w|cols limit|token]|];
      try (simpl; rewrite app_nil_r; now split).
    destruct r as [[|i| |]|]; try (simpl; rewrite app_nil_r; now split).
    destruct (C cols ps i eq_refl eq_refl) as [C1 C2]. simpl. split.
    + apply ascending_snoc; [exact H3|].
      eapply Forall_impl; [|exact H4]. simpl. intros; lia.
    + apply Forall_app. split; [exact W|]. repeat constructor; lia.
Qed.

(** Whatever is called in whatever interleaving, deletes included: the ids
    the store gives to the rows of INSERT statements, which are the ids the
    worker answers those inserts with, grow strictly, so no id is given
    twice, and none of them is an id the file had when the manager was
    started.  The schema's AUTOINCREMENT counter is what keeps the id of a
    deleted row from coming back. *)
Theorem row_ids_are_never_reused (d : database) (acts : list action)
  (m : manager) :
  coherent d ->
  run acts (started d) = Some m ->
  StronglySorted Z.lt (assigned_ids (trace m)) /\
  Forall (fun i => sequence d < i /\ ~ In i (ids d)) (assigned_ids (trace m)) /\
  coherent (conn m).
Proof.
  intros C R.
  assert (H : coherent (conn m) /\ sequence d <= sequence (conn m) /\
              StronglySorted Z.lt (assigned_ids (trace m)) /\
              Forall (fun i => sequence d < i <= sequence (conn m))
                     (assigned_ids (trace m))).
  { revert R.
    assert (B : coherent (conn (started d)) /\
                sequence d <= sequence (conn (started d)) /\
                StronglySorted Z.lt (assigned_ids (trace (started d))) /\
                Forall (fun i => sequence d < i <= sequence (conn (started d)))
                       (assigned_ids (trace (started d)))).
    { simpl. repeat split; [exact C|lia|constructor|constructor]. }
    revert B. generalize (started d) as m0.
    induction acts as [|a acts IH]; intros m0 B; simpl.
    - now intros [= <-].
    - destruct (step a m0) as [m1|] eqn:S; [|discriminate].
      apply IH. now apply (numbering_step d a m0). }
  destruct H as (H1 & _ & H3 & H4). split; [exact H3|]. split; [|exact H1].
  eapply Forall_impl; [|exact H4]. simpl. intros i [Hi _]. split; [exact Hi|].
  intros Hin. unfold coherent in C. rewrite Forall_forall in C.
  specialize (C i Hin). lia.
Qed.

Lemma row_ids_are_never_reused_witness :
  exists m : manager,
    run (calls [(1%nat, insert (Insert all_fields) label_job, 7);
                (1%nat, clear_history, 8);
                (1%nat, insert (Select_count Everything) [], 8);
                (2%nat, insert (Insert all_fields) label_job, 9)])
        (started fresh_table) = Some m /\
    assigned_ids (trace m) = [1; 2] /\
    new_ids (trace m) = [1; 1; 2] /\
    StronglySorted Z.lt (assigned_ids (trace m)).
Proof.
  eexists. split; [vm_compute; reflexivity|]. split; [reflexivity|].
  split; [reflexivity|].
  refine (proj1 (row_ids_are_never_reused fresh_table
                   (calls [(1%nat, insert (Insert all_fields) label_job, 7);
                           (1%nat, clear_history, 8);
                           (1%nat, insert (Select_count Everything) [], 8);
                           (2%nat, insert (Insert all_fields) label_job, 9)])
                   _ _ _)).
  - constructor.
  - vm_compute. reflexivity.
Defined.

(** ** The history view: tags, selection, deletion *)

(** The tag of a row is read back as the row's id. *)
Lemma tag_is_read_back (i : Z) : 0 < i -> as_id (V_text (history_tag i)) = Some i.
Proof.
  destruct i as [|p|p]; try lia. intros _.
  unfold history_tag, as_id. cbn [Z.to_int NilZero.string_of_int].
  rewrite NilZero.usu by apply Unsigned.to_uint_nonnil.
  cbn [option_map]. unfold Z.of_uint. now rewrite Unsigned.of_to.
Qed.

Lemma tag_matches (i : Z) (r : row) :
  0 < i -> matches Id_is [V_text (history_tag i)] r = Z.eqb (id r) i.
Proof. intros P. unfold matches. now rewrite (tag_is_read_back i P). Qed.

Lemma select_by_tag_done (d : database) (now i : Z) (rs : list row) :
  0 < i -> table d = Some rs ->
  execute d now (Some by_id) [V_text (history_tag i)] =
  Done d (Cursor (Some (last_insert_rowid d)) (-1)
            (map (fun r => [url r; print_type r; qr_data r])
                 (filter (fun r => Z.eqb (id r) i) rs))).
Proof.
  intros P T. unfold execute, by_id. rewrite T.
  cbn [place_holders length arity Nat.eqb negb].
  do 3 f_equal. apply filter_ext. intros r. now apply tag_matches.
Qed.

Lemma save_done (d : database) (now : Z) (u pt qr : value) (rs : list row) :
  table d = Some rs -> u <> V_null ->
  execute d now (Some (Insert [F_url; F_print_type; F_qr_data; F_status]))
          [u; pt; qr; V_text "processing"] =
  Done (Database
          (Some (rs ++ [Row (next_id d) (text_affinity u) (text_affinity pt)
                            (text_affinity qr) now (V_text "processing")]))
          (next_id d) (next_id d))
       (Cursor (Some (next_id d)) 1 []).
Proof.
  intros T U. unfold execute. rewrite T.
  cbn [place_holders length Nat.eqb negb].
  unfold new_row. cbn [bound field_eqb or_default url id text_affinity].
  destruct u; [congruence|reflexivity|reflexivity].
Qed.

Lemma next_id_positive (d : database) : 0 < next_id d.
Proof.
  unfold next_id, max_id.
  assert (0 <= fold_right Z.max 0 (map id (rows_of d))).
  { induction (map id (rows_of d)); simpl; lia. }
  lia.
Qed.

(** A job saved by [save_to_history] and then selected in the history tree
    is read back as it was written: [select_one] bound to the row's tag
    returns exactly the url, document class and scanned text of that job,
    as text. *)
Theorem saved_job_is_read_back (m : manager) (t t' : tid) (now now' : Z)
  (u pt qr : value) :
  quiet m -> idle t m -> idle t' m ->
  table (conn m) <> None -> u <> V_null ->
  exists (i : Z) (m' : manager),
    0 < i /\
    run (call t (save_to_history u pt qr) now ++
         call t' (get_selected_item (history_tag i)) now') m = Some m' /\
    trace m' = trace m ++
      [Executed t (save_to_history u pt qr) (Success (P_int i));
       Finished t (save_to_history u pt qr) (Some t) (Returns (P_int i));
       Executed t' (get_selected_item (history_tag i))
                (Success (P_row [text_affinity u; text_affinity pt;
                                 text_affinity qr]));
       Finished t' (get_selected_item (history_tag i)) (Some t')
                (Returns (P_row [text_affinity u; text_affinity pt;
                                 text_affinity qr]))].
Proof.
  intros Q I I' T U. destruct (table (conn m)) as [rs|] eqn:E; [|congruence].
  pose proof (next_id_positive (conn m)) as P.
  pose proof (save_done (conn m) now u pt qr rs E U) as S.
  pose proof (perform_insert _ _ _ _ _ _ S) as P1. cbn [lastrowid some_int] in P1.
  destruct (call_answers m t _ now _ _ Q I P1) as (m1 & R1 & T1 & C1 & Q1 & I1).
  assert (I1' : idle t' m1).
  { rewrite (call_runs _ _ _ _ Q I) in R1. injection R1 as <-.
    now apply after_call_idle. }
  pose proof (select_by_tag_done (conn m1) now' (next_id (conn m)) _ P
                ltac:(rewrite C1; reflexivity)) as S2.
  rewrite filter_app in S2.
  destruct (filter_id_absent (next_id (conn m)) rs) as [A _].
  { pose proof (next_id_fresh (conn m)) as F. unfold ids, rows_of in F.
    now rewrite E in F. }
  rewrite A in S2. cbn [filter id app] in S2. rewrite Z.eqb_refl in S2.
  cbn [map url print_type qr_data] in S2.
  assert (P2 : perform (conn m1) now' (get_selected_item (history_tag (next_id (conn m))))
               = (conn m1, Success (P_row [text_affinity u; text_affinity pt;
                                            text_affinity qr]))).
  { unfold perform, get_selected_item, select_one, or_empty, attempt.
    now rewrite S2. }
  destruct (call_answers m1 t' _ now' _ _ Q1 I1' P2) as (m2 & R2 & T2 & _).
  exists (next_id (conn m)), m2. split; [exact P|].
  unfold save_to_history. rewrite run_app, R1, R2, T2, T1, <- app_assoc.
  split; reflexivity.
Qed.

Lemma saved_job_is_read_back_witness :
  exists (i : Z) (m' : manager),
    0 < i /\
    run (call 1 (save_to_history (V_text "https://example.com/a.pdf")
                                 (V_text "label")
                                 (V_text "label:https://example.com/a.pdf")) 7 ++
         call 1 (get_selected_item (history_tag i)) 8)
        (started fresh_table) = Some m'.
Proof.
  destruct (saved_job_is_read_back (started fresh_table) 1%nat 1%nat 7 8
              (V_text "https://example.com/a.pdf") (V_text "label")
              (V_text "label:https://example.com/a.pdf")
              (started_quiet _) eq_refl eq_refl)
    as (i & m' & P & R & _); [discriminate|discriminate|].
  exists i, m'. split; [exact P|exact R].
Defined.

Lemma delete_by_tag_done (d : database) (now i : Z) (rs : list row) :
  0 < i -> table d = Some rs ->
  execute d now (Some (Delete Id_is)) [V_text (history_tag i)] =
  Done (Database (Some (filter (fun r => negb (Z.eqb (id r) i)) rs))
                 (sequence d) (last_insert_rowid d))
       (Cursor (Some (last_insert_rowid d))
               (Z.of_nat (length (filter (fun r => Z.eqb (id r) i) rs))) []).
Proof.
  intros P T. unfold execute. rewrite T.
  cbn [place_holders length arity Nat.eqb negb].
  f_equal.
  - do 2 f_equal. apply filter_ext. intros r. now rewrite tag_matches.
  - do 2 f_equal. f_equal. apply filter_ext. intros r. now apply tag_matches.
Qed.

(** How the call that has just been answered ended. *)
Lemma last_ending_answered (m m' : manager) (t : tid) (op : operation)
  (e : result) :
  trace m' = trace m ++ [Executed t op e;
                         Finished t op (Some t) (raise_or_return e)] ->
  last_ending t m' = Some (raise_or_return e).
Proof.
  intros T. unfold last_ending. rewrite T.
  change [Executed t op e; Finished t op (Some t) (raise_or_return e)]
    with ([Executed t op e] ++ [Finished t op (Some t) (raise_or_return e)]).
  rewrite app_assoc, last_last. now rewrite Nat.eqb_refl.
Qed.

(** [delete_selected] on a line of the history tree whose row is in the
    table looks the row up, and when the question is answered with yes
    removes that row and no other: the delete returns 1, the other rows
    stay as they were and in their order, and the history is read again.
    Run again on the same line, it finds no row and sends no DELETE at all.
    When the question is answered with no, nothing is deleted. *)
Theorem delete_selected_removes_one_row (m : manager) (t : tid)
  (now now' now'' now2 now3 now4 i : Z) (rs : list row) :
  quiet m -> idle t m ->
  table (conn m) = Some rs -> well_formed (conn m) ->
  0 < i -> In i (ids (conn m)) ->
  exists (m1 m2 m0 : manager) (r : row) (view : list (list value)),
    In r rs /\ id r = i /\
    delete_selected t (Some (history_tag i)) true now now' now'' m = Some m1 /\
    trace m1 = trace m ++
      [Executed t (get_selected_item (history_tag i))
                (Success (P_row [url r; print_type r; qr_data r]));
       Finished t (get_selected_item (history_tag i)) (Some t)
                (Returns (P_row [url r; print_type r; qr_data r]));
       Executed t (delete (Delete Id_is) [V_text (history_tag i)])
                (Success (P_int 1));
       Finished t (delete (Delete Id_is) [V_text (history_tag i)]) (Some t)
                (Returns (P_int 1));
       Executed t refresh_history (Success (P_rows view));
       Finished t refresh_history (Some t) (Returns (P_rows view))] /\
    rows_of (conn m1) = filter (fun x => negb (Z.eqb (id x) i)) rs /\
    ~ In i (ids (conn m1)) /\
    row_count (conn m) = S (row_count (conn m1)) /\
    delete_selected t (Some (history_tag i)) true now2 now3 now4 m1
      = Some m2 /\
    trace m2 = trace m1 ++
      [Executed t (get_selected_item (history_tag i)) (Success P_none);
       Finished t (get_selected_item (history_tag i)) (Some t)
                (Returns P_none)] /\
    conn m2 = conn m1 /\
    delete_selected t (Some (history_tag i)) false now now' now'' m
      = Some m0 /\
    conn m0 = conn m.
Proof.
  intros Q I T W P H.
  unfold well_formed, ids, rows_of in W, H. rewrite T in W, H.
  destruct (filter_id_present i rs W H) as (A & B & C).
  destruct (filter (fun x => Z.eqb (id x) i) rs) as [|r [|r' l]] eqn:F;
    try discriminate.
  assert (Fr : In r rs /\ Z.eqb (id r) i = true).
  { apply (filter_In (fun x => Z.eqb (id x) i)). rewrite F. now left. }
  destruct Fr as [Ir Er]. apply Z.eqb_eq in Er.
  (* the look-up finds the row *)
  pose proof (select_by_tag_done (conn m) now i rs P T) as S1.
  rewrite F in S1. cbn [map] in S1.
  assert (P1 : perform (conn m) now (get_selected_item (history_tag i)) =
               (conn m, Success (P_row [url r; print_type r; qr_data r]))).
  { unfold perform, get_selected_item, select_one, or_empty, attempt.
    now rewrite S1. }
  destruct (call_answers m t _ now _ _ Q I P1) as (ma & Ra & Ta & Ca & Qa & Ia).
  pose proof (last_ending_answered _ _ _ _ _ Ta) as La.
  (* the row is deleted *)
  pose proof (delete_by_tag_done (conn ma) now' i rs P
                ltac:(rewrite Ca; exact T)) as D1.
  rewrite F in D1. apply perform_delete in D1.
  cbn [rowcount Z.of_nat length] in D1.
  change (Z.pos (Pos.of_succ_nat 0)) with 1 in D1.
  destruct (call_answers ma t _ now' _ _ Qa Ia D1)
    as (mb & Rb & Tb & Cb & Qb & Ib).
  pose proof (last_ending_answered _ _ _ _ _ Tb) as Lb.
  (* the history is read again *)
  destruct (perform (conn mb) now'' refresh_history) as [dc rc] eqn:P3.
  assert (V : exists view, dc = conn mb /\ rc = Success (P_rows view)).
  { revert P3. rewrite Cb.
    unfold perform, refresh_history, select, or_empty, attempt, execute.
    cbn. intros [= <- <-]. eexists. split; reflexivity. }
  destruct V as (view & -> & ->).
  destruct (call_answers mb t _ now'' _ _ Qb Ib P3)
    as (m1 & R1 & T1 & C1 & Q1 & I1).
  (* the second look-up finds nothing *)
  destruct (filter_id_absent i _ B) as [A2 B2].
  pose proof (select_by_tag_done (conn m1) now2 i _ P
                ltac:(rewrite C1, Cb; reflexivity)) as S2.
  rewrite A2 in S2. cbn [map] in S2.
  assert (P2 : perform (conn m1) now2 (get_selected_item (history_tag i)) =
               (conn m1, Success P_none)).
  { unfold perform, get_selected_item, select_one, or_empty, attempt.
    now rewrite S2. }
  destruct (call_answers m1 t _ now2 _ _ Q1 I1 P2)
    as (m2 & R2 & T2 & C2 & Q2 & I2).
  pose proof (last_ending_answered _ _ _ _ _ T2) as L2.
  exists m1, m2, ma, r, view. split; [exact Ir|]. split; [exact Er|].
  unfold delete_selected. rewrite Ra, La. cbn [raise_or_return item_found].
  rewrite Rb, Lb. cbn [raise_or_return].
  split; [exact R1|].
  split; [rewrite T1, Tb, Ta, <- !app_assoc; reflexivity|].
  split; [unfold rows_of; rewrite C1, Cb; reflexivity|].
  split; [unfold ids, rows_of; rewrite C1, Cb; exact B|].
  split; [unfold row_count, rows_of; rewrite C1, Cb, T; exact C|].
  rewrite R2, L2. cbn [raise_or_return item_found].
  split; [reflexivity|]. split; [exact T2|]. split; [exact C2|].
  split; [reflexivity|exact Ca].
Qed.

Lemma delete_selected_removes_one_row_witness :
  exists m1 m2 : manager,
    delete_selected 1 (Some (history_tag 1)) true 8 9 10 (started one_job)
      = Some m1 /\
    rows_of (conn m1) = [] /\
    delete_selected 1 (Some (history_tag 1)) true 11 12 13 m1 = Some m2 /\
    executed (trace m2) =
      [(1%nat, get_selected_item (history_tag 1));
       (1%nat, delete (Delete Id_is) [V_text (history_tag 1)]);
       (1%nat, refresh_history);
       (1%nat, get_selected_item (history_tag 1))].
Proof.
  destruct (delete_selected_removes_one_row (started one_job) 1%nat 8 9 10 11
              12 13 1 [label_row] (started_quiet _) eq_refl eq_refl)
    as (m1 & m2 & _ & r & view & _ & _ & R1 & T1 & E & _ & _ & R2 & T2 & _).
  - repeat constructor. simpl. tauto.
  - reflexivity.
  - now left.
  - exists m1, m2. split; [exact R1|]. split; [exact E|]. split; [exact R2|].
    rewrite T2, T1. reflexivity.
Defined.

Lemma clear_done (d : database) (now : Z) (rs : list row) :
  table d = Some rs ->
  execute d now (Some (Delete Everything)) [] =
  Done (Database (Some []) (sequence d) (last_insert_rowid d))
       (Cursor (Some (last_insert_rowid d)) (Z.of_nat (length rs)) []).
Proof.
  intros T. unfold execute. rewrite T.
  cbn [place_holders length arity Nat.eqb negb].
  assert (A : filter (fun r => negb (matches Everything [] r)) rs = []).
  { clear. induction rs as [|r rs' IH]; [reflexivity|exact IH]. }
  assert (B : filter (matches Everything []) rs = rs).
  { clear. induction rs as [|r rs' IH]; [reflexivity|]. simpl. now rewrite IH. }
  now rewrite A, B.
Qed.

(** [clear_history] empties the table and returns the number of rows it
    removed, but the id counter is not reset: the next job saved gets an id
    above every id that was in the table, not 1. *)
Theorem clear_history_keeps_the_id_counter (m : manager) (t : tid)
  (now now' : Z) (u pt qr : value) (rs : list row) :
  quiet m -> idle t m ->
  table (conn m) = Some rs -> coherent (conn m) -> u <> V_null ->
  exists (j : Z) (m' : manager),
    run (call t clear_history now ++ call t (save_to_history u pt qr) now') m
      = Some m' /\
    trace m' = trace m ++
      [Executed t clear_history (Success (P_int (Z.of_nat (length rs))));
       Finished t clear_history (Some t) (Returns (P_int (Z.of_nat (length rs))));
       Executed t (save_to_history u pt qr) (Success (P_int j));
       Finished t (save_to_history u pt qr) (Some t) (Returns (P_int j))] /\
    rows_of (conn m') =
      [Row j (text_affinity u) (text_affinity pt) (text_affinity qr) now'
           (V_text "processing")] /\
    sequence (conn m) < j /\
    Forall (fun i => i < j) (ids (conn m)).
Proof.
  intros Q I T C U.
  pose proof (clear_done (conn m) now rs T) as D1.
  apply perform_delete in D1. cbn [rowcount] in D1.
  destruct (call_answers m t _ now _ _ Q I D1) as (m1 & R1 & T1 & C1 & Q1 & I1).
  pose proof (save_done (conn m1) now' u pt qr []
                ltac:(rewrite C1; reflexivity) U) as S.
  apply perform_insert in S. cbn [lastrowid some_int] in S.
  destruct (call_answers m1 t _ now' _ _ Q1 I1 S) as (m2 & R2 & T2 & C2 & _).
  exists (next_id (conn m1)), m2. unfold clear_history, save_to_history in *.
  rewrite run_app, R1, R2, T2, T1, <- app_assoc.
  split; [reflexivity|]. split; [reflexivity|].
  rewrite C2. split; [reflexivity|].
  assert (N : sequence (conn m) < next_id (conn m1)).
  { rewrite C1. unfold next_id. cbn [sequence]. lia. }
  split; [exact N|]. eapply Forall_impl; [|exact C]. simpl. intros; lia.
Qed.

Lemma clear_history_keeps_the_id_counter_witness :
  exists (j : Z) (m' : manager),
    run (call 1 clear_history 8 ++
         call 1 (save_to_history (V_text "https://example.com/b.pdf")
                                 (V_text "receipt") V_null) 9)
        (started one_job) = Some m' /\
    rows_of (conn m') =
      [Row j (V_text "https://example.com/b.pdf") (V_text "receipt") V_null 9
           (V_text "processing")] /\
    1 < j.
Proof.
  destruct (clear_history_keeps_the_id_counter (started one_job) 1%nat 8 9
              (V_text "https://example.com/b.pdf") (V_text "receipt") V_null
              [label_row] (started_quiet _) eq_refl eq_refl)
    as (j & m' & R & _ & E & N & _).
  - repeat constructor. simpl. lia.
  - discriminate.
  - exists j, m'. split; [exact R|]. split; [exact E|exact N].
Defined.

(** ** Time-outs *)

(** A call waits for a reply for as many time units as its time-out says and
    no longer: if the reply queue stays empty that long, the call raises
    "Database operation timed out"; the request is not withdrawn, it stays
    on the operation queue, and the file is untouched. *)
Theorem call_gives_up_after_its_timeout (m : manager) (t : tid)
  (op : operation) (timeout : nat) :
  idle t m -> result_queue m = [] ->
  run (Call t op timeout :: repeat (Wait t) (S timeout)) m = None /\
  exists m' : manager,
    run (Call t op timeout :: repeat (Wait t) timeout ++ [Give_up t]) m
      = Some m' /\
    trace m' = trace m ++ [Finished t op None (Raised timed_out)] /\
    operation_queue m' = operation_queue m ++ [Some (t, op)] /\
    conn m' = conn m /\ idle t m'.
Proof.
  intros I R. destruct (timeout_raises m t op timeout I R)
    as (N & m' & R' & T & Q & _ & C & _ & I').
  split; [exact N|]. exists m'. auto.
Qed.

Lemma call_gives_up_after_its_timeout_witness :
  run (Call 1 init_db 2 :: repeat (Wait 1) 3) (started empty_file) = None /\
  exists m' : manager,
    run (Call 1 init_db 2 :: repeat (Wait 1) 2 ++ [Give_up 1])
        (started empty_file) = Some m' /\
    operation_queue m' = [Some (1%nat, init_db)].
Proof.
  destruct (call_gives_up_after_its_timeout (started empty_file) 1%nat init_db
              2%nat eq_refl eq_refl) as (N & m' & R & _ & Q & _).
  split; [exact N|]. exists m'. split; [exact R|exact Q].
Defined.

(** ** Scanned codes *)

Import QRPDFPrinter.

Lemma starts_with_app (sep rest : string) :
  starts_with sep (sep ++ rest) = true.
Proof.
  induction sep as [|c sep IH]; simpl; [reflexivity|].
  now rewrite Ascii.eqb_refl, IH.
Qed.

Lemma starts_with_drop (sep s : string) :
  starts_with sep s = true -> s = (sep ++ drop (String.length sep) s)%string.
Proof.
  revert s. induction sep as [|c sep IH]; intros s; simpl; [reflexivity|].
  destruct s as [|b s]; [discriminate|]. intros H.
  apply andb_prop in H. destruct H as [E H]. apply Ascii.eqb_eq in E.
  subst b. f_equal. now apply IH.
Qed.

Lemma split_once_joins (sep s a b : string) :
  split_once sep s = Some (a, b) -> s = (a ++ sep ++ b)%string.
Proof.
  revert a b. induction s as [|c s IH]; intros a b; simpl.
  - destruct (starts_with sep "") eqn:E; [|discriminate].
    intros [= <- <-]. simpl. now apply starts_with_drop.
  - destruct (starts_with sep (String c s)) eqn:E.
    + intros [= <- <-]. simpl. now apply starts_with_drop.
    + destruct (split_once sep s) as [[a' b']|]; [|discriminate].
      intros [= <- <-]. simpl. f_equal. now apply IH.
Qed.

Lemma split_once_leftmost (sep s a b : string) :
  split_once sep s = Some (a, b) ->
  forall a' b' : string,
    s = (a' ++ sep ++ b')%string -> (String.length a <= String.length a')%nat.
Proof.
  revert a b. induction s as [|c s IH]; intros a b; simpl.
  - destruct (starts_with sep "") eqn:E; [|discriminate].
    intros [= <- <-] a' b' _. simpl. lia.
  - destruct (starts_with sep (String c s)) eqn:E.
    + intros [= <- <-] a' b' _. simpl. lia.
    + destruct (split_once sep s) as [[a0 b0]|] eqn:S; [|discriminate].
      intros [= <- <-] a' b' H. destruct a' as [|c' a'].
      * simpl in H. rewrite H, starts_with_app in E. discriminate.
      * simpl in H. injection H as -> H. simpl. apply le_n_S.
        now apply (IH a0 b0 eq_refl a' b').
Qed.

Lemma split_once_char (c : ascii) (p u : string) :
  ~ occurs_in c p ->
  split_once (String c "") (p ++ String c u) = Some (p, u).
Proof.
  induction p as [|b p IH]; intros N.
  - simpl. now rewrite Ascii.eqb_refl.
  - cbn [append split_once starts_with]. simpl in N.
    destruct (Ascii.eqb_spec c b) as [->|D]; [tauto|].
    cbn [andb]. rewrite IH by tauto. reflexivity.
Qed.

Lemma lower_char_twice (c : ascii) : lower_char (lower_char c) = lower_char c.
Proof. destruct c as [[] [] [] [] [] [] [] []]; reflexivity. Qed.

Lemma lower_twice (s : string) : lower (lower s) = lower s.
Proof.
  induction s as [|c s IH]; simpl; [reflexivity|].
  now rewrite lower_char_twice, IH.
Qed.

Lemma first_with_prefix_found (p type_id : string) (d : printer_types) :
  first_with_prefix p d = Some type_id ->
  exists tc, In (type_id, tc) d /\ prefix tc = p.
Proof.
  induction d as [|[k tc] d IH]; simpl; [discriminate|].
  destruct (String.eqb_spec (prefix tc) p) as [E|E].
  - intros [= <-]. exists tc. auto.
  - intros H. destruct (IH H) as (tc' & I & P). exists tc'. auto.
Qed.

(** What [process_qr_input] accepts.  A print job is only ever made from a
    text that, stripped of surrounding white space, reads prefix, separator,
    url: the separator is not empty, the split is at its leftmost
    occurrence (so the url may contain the separator, the prefix cannot),
    the prefix in lower case is the prefix of the printer type chosen, and
    the stripped text is what goes into the history. *)
Theorem print_job_is_split_at_the_first_separator (cfg : config)
  (entry type_id url qr_data : string) :
  process_qr_input cfg entry = Print_job type_id url qr_data ->
  qr_data = strip entry /\
  separator_of cfg <> EmptyString /\
  type_id <> EmptyString /\
  exists p : string,
    qr_data = (p ++ separator_of cfg ++ url)%string /\
    get_printer_type_by_prefix cfg (lower p) = Some type_id /\
    forall p' url' : string,
      qr_data = (p' ++ separator_of cfg ++ url')%string ->
      (String.length p <= String.length p')%nat.
Proof.
  unfold process_qr_input.
  destruct (strip entry) as [|c0 q0] eqn:Q; [discriminate|].
  destruct (contains (separator_of cfg) (String c0 q0)); cycle 1.
  { unfold not_in_format. now destruct (get_valid_prefixes cfg). }
  destruct (separator_of cfg) as [|s0 sep] eqn:S; [discriminate|].
  destruct (split_once (String s0 sep) (String c0 q0)) as [[p u]|] eqn:P;
    cycle 1.
  { unfold not_in_format. now destruct (get_valid_prefixes cfg). }
  destruct (get_printer_type_by_prefix cfg (lower p)) as [[|i0 id0]|] eqn:G;
    try discriminate.
  intros [= <- <- <-]. split; [reflexivity|]. split; [discriminate|].
  split; [discriminate|]. exists p.
  split; [now apply split_once_joins|]. split; [exact G|].
  now apply (split_once_leftmost _ _ _ _ P).
Qed.

Lemma print_job_is_split_at_the_first_separator_witness :
  "label:https://example.com/a.pdf" = strip "  label:https://example.com/a.pdf " /\
  exists p : string,
    "label:https://example.com/a.pdf"
      = (p ++ separator_of default_config ++ "https://example.com/a.pdf")%string /\
    get_printer_type_by_prefix default_config (lower p) = Some "label".
Proof.
  destruct (print_job_is_split_at_the_first_separator default_config
              "  label:https://example.com/a.pdf " "label"
              "https://example.com/a.pdf" "label:https://example.com/a.pdf"
              eq_refl) as (Q & _ & _ & p & J & G & _).
  split; [exact Q|]. exists p. split; [exact J|exact G].
Defined.

(** What [process_qr_input] does with a well-formed code.  With a
    one-character separator, a text that, stripped, reads prefix,
    separator, rest, where the prefix does not contain the separator and in
    lower case is the prefix of a printer type, becomes a print job for the
    first such type; the url is everything after the first separator, further
    separators included, and may be empty. *)
Theorem scan_with_known_prefix_is_a_job (cfg : config) (entry p url : string)
  (c : ascii) (i0 : ascii) (id0 : string) :
  qr_separator cfg = Some (String c "") ->
  strip entry = (p ++ String c url)%string ->
  ~ occurs_in c p ->
  get_printer_type_by_prefix cfg (lower p) = Some (String i0 id0) ->
  process_qr_input cfg entry = Print_job (String i0 id0) url (strip entry).
Proof.
  intros S Q N G. unfold process_qr_input, contains, separator_of.
  rewrite S, Q, (split_once_char c p url N), G.
  destruct (p ++ String c url)%string eqn:E; [|reflexivity].
  destruct p; discriminate.
Qed.

Lemma scan_with_known_prefix_is_a_job_witness :
  process_qr_input default_config "RECEIPT:http://10.0.0.2:8080/r.pdf"
  = Print_job "receipt" "http://10.0.0.2:8080/r.pdf"
              "RECEIPT:http://10.0.0.2:8080/r.pdf".
Proof.
  apply (scan_with_known_prefix_is_a_job default_config
           "RECEIPT:http://10.0.0.2:8080/r.pdf" "RECEIPT"
           "http://10.0.0.2:8080/r.pdf" ":" "r" "eceipt");
    [reflexivity|reflexivity| |reflexivity].
  simpl. intros H. repeat (destruct H as [H|H]; [discriminate|]). exact H.
Defined.

(** The prefix of the scanned text is put in lower case, the prefix of a
    printer type is compared as it is configured: every print job goes to a
    type whose configured prefix is in lower case, so a type configured
    with a capital letter in its prefix is never chosen by any scan. *)
Theorem prefix_with_capitals_is_never_matched (cfg : config)
  (entry type_id url qr_data : string) :
  process_qr_input cfg entry = Print_job type_id url qr_data ->
  exists tc : printer_type,
    In (type_id, tc) (types cfg) /\ lower (prefix tc) = prefix tc.
Proof.
  unfold process_qr_input.
  destruct (strip entry) as [|c0 q0] eqn:Q; [discriminate|].
  destruct (contains (separator_of cfg) (String c0 q0)); cycle 1.
  { unfold not_in_format. now destruct (get_valid_prefixes cfg). }
  destruct (separator_of cfg) as [|s0 sep] eqn:S; [discriminate|].
  destruct (split_once (String s0 sep) (String c0 q0)) as [[p u]|] eqn:P;
    cycle 1.
  { unfold not_in_format. now destruct (get_valid_prefixes cfg). }
  destruct (get_printer_type_by_prefix cfg (lower p)) as [[|i0 id0]|] eqn:G;
    try discriminate.
  intros [= <- <- <-].
  destruct (first_with_prefix_found _ _ _ G) as (tc & I & E).
  exists tc. split; [exact I|]. rewrite E. apply lower_twice.
Qed.

Lemma prefix_with_capitals_is_never_matched_witness :
  exists tc : printer_type,
    In ("label", tc) (types default_config) /\ lower (prefix tc) = prefix tc.
Proof.
  exact (prefix_with_capitals_is_never_matched default_config
           "Label:x" "label" "x" "Label:x" eq_refl).
Defined.

(** With an empty separator in the settings nothing can be printed: every
    text that is not blank is rejected with "QR processing error: empty
    separator", because [split] raises on an empty separator. *)
Theorem empty_separator_rejects_every_scan (cfg : config) (entry : string) :
  qr_separator cfg = Some EmptyString ->
  strip entry <> EmptyString ->
  process_qr_input cfg entry = Rejected (processing_error "empty separator").
Proof.
  intros S Q. unfold process_qr_input, separator_of. rewrite S.
  destruct (strip entry) as [|c0 q0]; [congruence|]. reflexivity.
Qed.

Lemma empty_separator_rejects_every_scan_witness :
  process_qr_input (Config default_printer_types (Some ""))
                   "label:https://example.com/a.pdf"
  = Rejected "QR processing error: empty separator".
Proof.
  apply (empty_separator_rejects_every_scan
           (Config default_printer_types (Some ""))
           "label:https://example.com/a.pdf"); [reflexivity|discriminate].
Defined.

(** ** Printer types *)

Lemma dict_get_in (k : string) (v : printer_type) (d : printer_types) :
  unique_keys d -> In (k, v) d -> dict_get k d = Some v.
Proof.
  unfold unique_keys. induction d as [|[k' v'] d IH]; simpl; [tauto|].
  intros U. apply NoDup_cons_iff in U. destruct U as [F U].
  intros [[= -> ->]|H]; [now rewrite String.eqb_refl|].
  destruct (String.eqb_spec k k') as [->|N]; [|now apply IH].
  exfalso. apply F. apply in_map_iff. now exists (k', v).
Qed.

Lemma dict_get_none (k : string) (d : printer_types) :
  dict_get k d = None <-> ~ In k (map fst d).
Proof.
  induction d as [|[k' v'] d IH]; simpl; [tauto|].
  destruct (String.eqb_spec k k') as [->|N].
  - split; [discriminate|]. intros H. exfalso. apply H. now left.
  - rewrite IH. split; [intros H [E|I]; [congruence|tauto]|tauto].
Qed.

Lemma first_with_prefix_none (p : string) (d : printer_types) :
  first_with_prefix p d = None <->
  ~ In p (map (fun kv => prefix (snd kv)) d).
Proof.
  induction d as [|[k tc] d IH]; simpl; [tauto|].
  destruct (String.eqb_spec (prefix tc) p) as [E|E].
  - split; [discriminate|]. intros H. exfalso. apply H. now left.
  - rewrite IH. tauto.
Qed.

(** [get_printer_type_by_prefix] and [get_valid_prefixes] agree: a prefix
    is unknown exactly when it is not in the list of valid prefixes shown in
    the error message, and a prefix that is known yields the id of a
    configured type that has this prefix. *)
Theorem prefix_lookup_agrees_with_valid_prefixes (cfg : config) (p : string) :
  unique_keys (types cfg) ->
  (get_printer_type_by_prefix cfg p = None <->
   ~ In p (get_valid_prefixes cfg)) /\
  (forall type_id : string,
      get_printer_type_by_prefix cfg p = Some type_id ->
      exists tc : printer_type,
        dict_get type_id (types cfg) = Some tc /\ prefix tc = p /\
        In type_id (get_printer_types cfg)).
Proof.
  intros U. split; [apply first_with_prefix_none|].
  intros type_id G. destruct (first_with_prefix_found _ _ _ G) as (tc & I & E).
  exists tc. split; [now apply dict_get_in|]. split; [exact E|].
  unfold get_printer_types. apply in_map_iff. now exists (type_id, tc).
Qed.

Lemma prefix_lookup_agrees_with_valid_prefixes_witness :
  (get_printer_type_by_prefix default_config "ticket" = None <->
   ~ In "ticket" (get_valid_prefixes default_config)) /\
  exists tc : printer_type,
    dict_get "receipt" (types default_config) = Some tc /\
    prefix tc = "receipt".
Proof.
  destruct (prefix_lookup_agrees_with_valid_prefixes default_config "ticket")
    as [A _].
  { repeat constructor; simpl; intuition discriminate. }
  split; [exact A|].
  destruct (prefix_lookup_agrees_with_valid_prefixes default_config "receipt")
    as [_ B].
  { repeat constructor; simpl; intuition discriminate. }
  destruct (B "receipt" eq_refl) as (tc & G & E & _).
  exists tc. split; [exact G|exact E].
Defined.

Lemma dict_del_keys (k : string) (d : printer_types) :
  unique_keys d ->
  unique_keys (dict_del k d) /\
  dict_get k (dict_del k d) = None /\
  (forall k', k' <> k -> dict_get k' (dict_del k d) = dict_get k' d) /\
  map fst (dict_del k d) =
    filter (fun k' => negb (String.eqb k k')) (map fst d) /\
  (dict_get k d <> None -> length d = S (length (dict_del k d))).
Proof.
  unfold unique_keys. induction d as [|[k0 v0] d IH]; simpl.
  - intros _. repeat split; [constructor|tauto].
  - intros U. apply NoDup_cons_iff in U. destruct U as [F U].
    destruct (IH U) as (A & B & C & D & E).
    destruct (String.eqb_spec k k0) as [->|N]; simpl.
    + split; [exact U|]. split; [now apply dict_get_none|].
      split; [|split; [|reflexivity]].
      * intros k' N'. destruct (String.eqb_spec k' k0); [congruence|reflexivity].
      * symmetry. clear -F. induction (map fst d) as [|x l IHl]; [reflexivity|].
        simpl in *. destruct (String.eqb_spec k0 x) as [->|]; [tauto|].
        simpl. f_equal. apply IHl. tauto.
    + split.
      { constructor; [|exact A]. rewrite D. intros H.
        apply filter_In in H. tauto. }
      split.
      { destruct (String.eqb_spec k k0); [congruence|exact B]. }
      split.
      { intros k' N'. destruct (String.eqb_spec k' k0); [reflexivity|].
        now apply C. }
      split; [now rewrite D|].
      intros H. f_equal. now apply E.
Qed.

(** [remove_printer_type] removes a type only if it is configured and is not
    the last one, so a configuration with a type never becomes empty.  When
    it returns True the type is gone, the other types keep their values and
    their order; when it returns False nothing has changed. *)
Theorem remove_printer_type_keeps_a_type (cfg : config) (type_id : string) :
  unique_keys (types cfg) ->
  (snd (remove_printer_type cfg type_id) = true <->
   In type_id (get_printer_types cfg) /\ (2 <= length (types cfg))%nat) /\
  (types cfg <> [] -> types (fst (remove_printer_type cfg type_id)) <> []) /\
  (snd (remove_printer_type cfg type_id) = false ->
   fst (remove_printer_type cfg type_id) = cfg) /\
  (snd (remove_printer_type cfg type_id) = true ->
   dict_get type_id (types (fst (remove_printer_type cfg type_id))) = None /\
   (forall k, k <> type_id ->
      dict_get k (types (fst (remove_printer_type cfg type_id)))
        = dict_get k (types cfg)) /\
   get_printer_types (fst (remove_printer_type cfg type_id)) =
     filter (fun k => negb (String.eqb type_id k)) (get_printer_types cfg) /\
   length (types cfg) = S (length (types (fst (remove_printer_type cfg type_id))))).
Proof.
  intros U. destruct (dict_del_keys type_id (types cfg) U) as (A & B & C & D & E).
  unfold remove_printer_type, dict_has, get_printer_types.
  destruct (dict_get type_id (types cfg)) as [tc|] eqn:G; cbn [andb].
  - destruct (Nat.ltb_spec 1 (length (types cfg))) as [L|L]; cbn [fst snd types].
    + split.
      { split; [intros _|reflexivity]. split; [|lia].
        destruct (In_dec string_dec type_id (map fst (types cfg))) as [I|I];
          [exact I|].
        apply dict_get_none in I. congruence. }
      split.
      { intros _ H. specialize (E ltac:(discriminate)).
        rewrite H in E. simpl in E. lia. }
      split; [discriminate|]. intros _.
      split; [exact B|]. split; [exact C|]. split; [exact D|].
      apply E. discriminate.
    + split; [split; [discriminate|intros [_ H]; lia]|].
      split; [tauto|]. split; [reflexivity|discriminate].
  - cbn [fst snd]. split.
    + split; [discriminate|]. intros [I _].
      apply dict_get_none in G. tauto.
    + split; [tauto|]. split; [reflexivity|discriminate].
Qed.

Lemma remove_printer_type_keeps_a_type_witness :
  snd (remove_printer_type default_config "label") = true /\
  get_printer_types (fst (remove_printer_type default_config "label"))
    = ["receipt"] /\
  fst (remove_printer_type (fst (remove_printer_type default_config "label"))
                           "receipt")
    = fst (remove_printer_type default_config "label").
Proof.
  assert (U : unique_keys (types default_config)).
  { repeat constructor; simpl; intuition discriminate. }
  destruct (remove_printer_type_keeps_a_type default_config "label" U)
    as (A & _ & _ & D).
  assert (T : snd (remove_printer_type default_config "label") = true).
  { apply A. split; [now left|simpl; lia]. }
  split; [exact T|]. destruct (D T) as (_ & _ & K & _).
  split; [exact K|].
  apply (remove_printer_type_keeps_a_type
           (fst (remove_printer_type default_config "label")) "receipt").
  - repeat constructor; simpl; intuition discriminate.
  - reflexivity.
Defined.

Lemma dict_set_new (k : string) (v : printer_type) (d : printer_types) :
  dict_get k d = None -> dict_set k v d = d ++ [(k, v)].
Proof.
  induction d as [|[k0 v0] d IH]; simpl; [reflexivity|].
  destruct (String.eqb k k0); [discriminate|]. intros H. now rewrite IH.
Qed.

Lemma first_with_prefix_app (p : string) (d e : printer_types) :
  first_with_prefix p (d ++ e) =
  match first_with_prefix p d with
  | Some type_id => Some type_id
  | None => first_with_prefix p e
  end.
Proof.
  induction d as [|[k tc] d IH]; simpl; [reflexivity|].
  now destruct (String.eqb (prefix tc) p).
Qed.

Lemma dict_get_app (k : string) (d e : printer_types) :
  dict_get k (d ++ e) =
  match dict_get k d with Some v => Some v | None => dict_get k e end.
Proof.
  induction d as [|[k0 v0] d IH]; simpl; [reflexivity|].
  now destruct (String.eqb k k0).
Qed.

(** [add_new_printer_type] refuses an id that is already configured and
    leaves the configuration as it is.  A new id is added behind the
    existing types, which keep their values; but nothing checks the prefix:
    if an existing type already has the new type's prefix, scans with that
    prefix still go to the existing type and the new one is never chosen. *)
Theorem added_type_comes_last (cfg : config) (type_id display p : string)
  (media : list string) :
  (dict_has type_id (types cfg) = true ->
   add_new_printer_type cfg type_id display p media =
   (cfg, Some ("Printer type '" ++ type_id ++ "' already exists!")%string)) /\
  (dict_has type_id (types cfg) = false ->
   exists cfg' : config,
     add_new_printer_type cfg type_id display p media = (cfg', None) /\
     get_printer_types cfg' = get_printer_types cfg ++ [type_id] /\
     get_valid_prefixes cfg' = get_valid_prefixes cfg ++ [p] /\
     get_media_options cfg' type_id = media /\
     (forall k, k <> type_id ->
        dict_get k (types cfg') = dict_get k (types cfg)) /\
     (forall q,
        get_printer_type_by_prefix cfg' q =
        match get_printer_type_by_prefix cfg q with
        | Some older => Some older
        | None => if String.eqb p q then Some type_id else None
        end)).
Proof.
  unfold add_new_printer_type, dict_has.
  destruct (dict_get type_id (types cfg)) as [tc|] eqn:G; cbn [negb].
  - split; [reflexivity|discriminate].
  - split; [discriminate|]. intros _. eexists. split; [reflexivity|].
    unfold add_printer_type, get_printer_types, get_valid_prefixes,
      get_media_options, get_printer_type_by_prefix. cbn [types].
    rewrite (dict_set_new _ _ _ G), !map_app, dict_get_app, G. cbn.
    rewrite String.eqb_refl. cbn. repeat split.
    + intros k N. rewrite dict_get_app. simpl.
      destruct (String.eqb_spec k type_id); [congruence|].
      now destruct (dict_get k (types cfg)).
    + intros q. rewrite first_with_prefix_app. reflexivity.
Qed.

Lemma added_type_comes_last_witness :
  exists cfg' : config,
    add_new_printer_type default_config "badge" "Badge Printer" "label"
                         ["Custom.54x86mm"] = (cfg', None) /\
    get_printer_types cfg' = ["label"; "receipt"; "badge"] /\
    get_printer_type_by_prefix cfg' "label" = Some "label".
Proof.
  destruct (added_type_comes_last default_config "badge" "Badge Printer"
              "label" ["Custom.54x86mm"]) as [_ A].
  destruct (A eq_refl) as (cfg' & E & K & _ & _ & _ & Q).
  exists cfg'. split; [exact E|]. split; [exact K|]. rewrite Q. reflexivity.
Defined.

(** ** What is shown of a URL *)

Lemma text_length_app (a b : string) :
  String.length (a ++ b) = (String.length a + String.length b)%nat.
Proof. induction a as [|c a IH]; simpl; [reflexivity|now rewrite IH]. Qed.

Lemma take_length (n : nat) (s : string) :
  (n <= String.length s)%nat -> String.length (take n s) = n.
Proof.
  revert s. induction n as [|n IH]; intros [|c s]; simpl; try lia.
  intros H. rewrite IH; lia.
Qed.

Lemma take_drop (n : nat) (s : string) : s = (take n s ++ drop n s)%string.
Proof.
  revert s. induction n as [|n IH]; intros [|c s]; simpl; try reflexivity.
  f_equal. apply IH.
Qed.

(** The URL shown while a code is being entered never has more than 60
    characters, the URL shown in the history never more than 50.  A URL that
    fits is shown as it is; a longer one is cut to its first 57 (47)
    characters followed by three dots. *)
Theorem shown_url_fits (url : string) :
  (String.length (preview_url url) <= 60)%nat /\
  (String.length (history_url url) <= 50)%nat /\
  ((String.length url <= 60)%nat -> preview_url url = url) /\
  ((String.length url <= 50)%nat -> history_url url = url) /\
  ((60 < String.length url)%nat ->
   exists rest, url = (take 57 url ++ rest)%string /\
                String.length (take 57 url) = 57%nat /\
                preview_url url = (take 57 url ++ "...")%string) /\
  ((50 < String.length url)%nat ->
   exists rest, url = (take 47 url ++ rest)%string /\
                String.length (take 47 url) = 47%nat /\
                history_url url = (take 47 url ++ "...")%string).
Proof.
  assert (P : forall n, (n < String.length url)%nat ->
            String.length (take n url ++ "...") = (n + 3)%nat).
  { intros n H. rewrite text_length_app, take_length by lia. reflexivity. }
  unfold preview_url, history_url.
  destruct (Nat.leb_spec (String.length url) 60) as [A|A];
    destruct (Nat.leb_spec (String.length url) 50) as [B|B];
    rewrite ?P by lia.
  all: split; [lia|]; split; [lia|]; split; [intros H; try reflexivity; lia|].
  all: split; [intros H; try reflexivity; lia|]; split; intros H; try lia.
  all: try (exists (drop 57 url); split; [apply take_drop|];
            split; [apply take_length; lia|reflexivity]).
  all: exists (drop 47 url); split; [apply take_drop|];
       split; [apply take_length; lia|reflexivity].
Qed.

Lemma shown_url_fits_witness :
  (String.length
     (preview_url
        "https://example.com/documents/2024/invoices/customer-000123/label.pdf")
   <= 60)%nat /\
  history_url "https://example.com/a.pdf" = "https://example.com/a.pdf".
Proof.
  destruct (shown_url_fits
              "https://example.com/documents/2024/invoices/customer-000123/label.pdf")
    as (A & _).
  destruct (shown_url_fits "https://example.com/a.pdf") as (_ & _ & _ & B & _).
  split; [exact A|]. apply B. vm_compute. lia.
Defined.

(** ** From a scan to a history row *)

Lemma scanned_is_a_job (cfg : config) (entry : string) (op : operation) :
  scanned cfg entry = Some op ->
  exists type_id url,
    process_qr_input cfg entry = Print_job type_id url (strip entry) /\
    op = save_to_history (V_text url) (V_text type_id) (V_text (strip entry)).
Proof.
  unfold scanned. destruct (process_qr_input cfg entry) as [|ty u q|e] eqn:P;
    try discriminate.
  intros E. cbv beta iota in E. injection E as <-. exists ty, u.
  assert (q = strip entry) as ->; [|split; reflexivity].
  assert (N : not_in_format cfg <> Print_job ty u q).
  { unfold not_in_format. now destruct (get_valid_prefixes cfg). }
  unfold process_qr_input in P.
  destruct (strip entry) as [|c s]; [discriminate|].
  destruct (contains (separator_of cfg) (String c s)); [|contradiction].
  destruct (separator_of cfg); [discriminate|].
  destruct (split_once _ _) as [[p u']|]; [|contradiction].
  destruct (get_printer_type_by_prefix cfg (lower p)) as [[|? ?]|];
    try discriminate.
  now injection P.
Qed.

(** Every scan that [process_qr_input] accepts is written to the history
    before anything is printed: issued while nothing else is in flight on a
    file that has the table, the insert succeeds and appends one row holding
    the url after the separator, the id of the printer type, the stripped
    text of the scan, the time of the insert and the status 'processing'.
    The url is stored as text even when it is empty. *)
Theorem accepted_scan_is_stored (cfg : config) (entry : string)
  (op : operation) (m : manager) (t : tid) (now : Z) (rs : list row) :
  scanned cfg entry = Some op ->
  quiet m -> idle t m -> table (conn m) = Some rs ->
  exists (type_id url : string) (m' : manager),
    process_qr_input cfg entry = Print_job type_id url (strip entry) /\
    run (call t op now) m = Some m' /\
    rows_of (conn m') =
      rs ++ [Row (next_id (conn m)) (V_text url) (V_text type_id)
                 (V_text (strip entry)) now (V_text "processing")] /\
    trace m' = trace m ++
      [Executed t op (Success (P_int (next_id (conn m))));
       Finished t op (Some t) (Returns (P_int (next_id (conn m))))].
Proof.
  intros S Q I T.
  destruct (scanned_is_a_job _ _ _ S) as (ty & u & P & ->).
  assert (U : V_text u <> V_null) by discriminate.
  pose proof (save_done (conn m) now _ (V_text ty) (V_text (strip entry)) rs T U)
    as D.
  apply perform_insert in D. cbn [lastrowid some_int] in D.
  destruct (call_answers m t _ now _ _ Q I D) as (m1 & R & Tr & C & _).
  exists ty, u, m1. unfold save_to_history in *.
  split; [exact P|]. split; [exact R|]. split; [|exact Tr].
  unfold rows_of. now rewrite C.
Qed.

Lemma accepted_scan_is_stored_witness :
  exists (type_id url : string) (m' : manager),
    process_qr_input default_config "  Label:https://example.com/a.pdf " =
      Print_job type_id url "Label:https://example.com/a.pdf" /\
    run (call 1 (save_to_history (V_text "https://example.com/a.pdf")
                                 (V_text "label")
                                 (V_text "Label:https://example.com/a.pdf")) 9)
        (started one_job) = Some m'.
Proof.
  destruct (accepted_scan_is_stored default_config
              "  Label:https://example.com/a.pdf "
              (save_to_history (V_text "https://example.com/a.pdf")
                               (V_text "label")
                               (V_text "Label:https://example.com/a.pdf"))
              (started one_job) 1%nat 9 [label_row]
              eq_refl (started_quiet _) eq_refl eq_refl)
    as (ty & u & m' & P & R & _).
  exists ty, u, m'. split; [exact P|exact R].
Defined.
